(** * @andrejewski/result: a verification development for [src/result.ts]

    The module exports two factories, [ok] and [err], that build instances of
    the classes [Ok] and [Err].  Instances are JavaScript objects: they live in
    a heap, have an identity, own properties with attributes, and are frozen
    and sealed by the constructor.  The embedding below keeps all of that:

    - JavaScript values are [val]; objects are referred to by location;
    - the heap is a list of objects, a location is an index, allocation
      appends;
    - code is written in a state-and-exception monad [M] over the heap;
    - functions supplied by the caller are arbitrary computations
      [val -> M val]: they may read and write the heap and they may throw.

    Numbers are restricted to integers (the module never computes on its
    payloads, it only stores and forwards them). *)

From stdpp Require Import base strings list gmap.

Open Scope string_scope.
Open Scope list_scope.

(** ** JavaScript values and objects *)

Definition loc := nat.

Inductive val : Type :=
  | VUndefined
  | VNull
  | VBool (b : bool)
  | VNum (n : Z)
  | VStr (s : string)
  | VRef (l : loc).

#[global] Instance val_eq_dec : EqDecision val.
Proof. solve_decision. Defined.

(** The [[Prototype]] of an object: [Object.prototype], [Ok.prototype] or
    [Err.prototype].  Method lookup on an instance goes through it. *)
Inductive class : Type := CObject | COk | CErr.

#[global] Instance class_eq_dec : EqDecision class.
Proof. solve_decision. Defined.

(** A data property with the two attributes that [Object.freeze] and
    [Object.seal] act on. *)
Record prop : Type := mkProp {
  p_value : val;
  p_writable : bool;
  p_configurable : bool
}.

Record obj : Type := mkObj {
  o_class : class;
  o_props : gmap string prop;
  o_extensible : bool
}.

Abbreviation heap := (list obj).

(** ** The monad of JavaScript computations *)

Inductive exn : Type :=
  | Error (message : string)      (* [throw new Error(message)] *)
  | TypeError                     (* raised by the runtime *)
  | Thrown (v : val).             (* [throw v] in caller code *)

Inductive outcome (A : Type) : Type :=
  | Ret (a : A)
  | Throw (e : exn).

Arguments Ret {A} a.
Arguments Throw {A} e.

Definition M (A : Type) : Type := heap -> outcome A * heap.

Definition ret {A} (a : A) : M A := fun h => (Ret a, h).

Definition throw {A} (e : exn) : M A := fun h => (Throw e, h).

Definition bind {A B} (c : M A) (k : A -> M B) : M B := fun h =>
  match c h with
  | (Ret a, h') => k a h'
  | (Throw e, h') => (Throw e, h')
  end.

Declare Scope js_scope.
Delimit Scope js_scope with js.

Notation "x <- c ;; k" := (bind c (fun x => k))
  (at level 100, c at next level, right associativity) : js_scope.
Notation "c ;;; k" := (bind c (fun _ => k))
  (at level 100, right associativity) : js_scope.

Open Scope js_scope.

(** A computation returns normally. *)
Definition returns {A} (c : M A) (h : heap) : Prop :=
  exists a h', c h = (Ret a, h').

(** ** Runtime primitives *)

(** [{}] and the [this] of a [new] expression: a fresh extensible object
    without own properties. *)
Definition new_object (c : class) : obj := mkObj c ∅ true.

Definition alloc (o : obj) : M val := fun h => (Ret (VRef (length h)), h ++ [o]).

Definition own_value (o : obj) (k : string) : val :=
  match o_props o !! k with
  | Some p => p_value p
  | None => VUndefined
  end.

(** [v.k] for an own data property: the prototype chain is not followed, so
    this is the read of a field the object itself carries ([type], [isOk],
    [isErr], [value], [error] on an instance) and says nothing about
    inherited members.  Primitives have none of the properties this module
    reads; [undefined.k] and [null.k] raise. *)
Definition js_get (v : val) (k : string) : M val := fun h =>
  match v with
  | VRef l =>
      match h !! l with
      | Some o => (Ret (own_value o k), h)
      | None => (Throw TypeError, h)
      end
  | VUndefined | VNull => (Throw TypeError, h)
  | _ => (Ret VUndefined, h)
  end.

(** A rejected write raises in strict code and is silently dropped in
    sloppy code. *)
Definition reject (strict : bool) : M unit :=
  if strict then throw TypeError else ret tt.

Definition set_own (o : obj) (k : string) (p : prop) : obj :=
  mkObj (o_class o) (<[k := p]> (o_props o)) (o_extensible o).

(** [v.k = x] *)
Definition js_set (strict : bool) (v : val) (k : string) (x : val) : M unit := fun h =>
  match v with
  | VRef l =>
      match h !! l with
      | Some o =>
          match o_props o !! k with
          | Some p =>
              if p_writable p
              then (Ret tt, <[l := set_own o k (mkProp x true (p_configurable p))]> h)
              else reject strict h
          | None =>
              if o_extensible o
              then (Ret tt, <[l := set_own o k (mkProp x true true)]> h)
              else reject strict h
          end
      | None => (Throw TypeError, h)
      end
  | VUndefined | VNull => (Throw TypeError, h)
  | _ => reject strict h
  end.

(** [delete v.k] *)
Definition js_delete (strict : bool) (v : val) (k : string) : M unit := fun h =>
  match v with
  | VRef l =>
      match h !! l with
      | Some o =>
          match o_props o !! k with
          | Some p =>
              if p_configurable p
              then (Ret tt, <[l := mkObj (o_class o) (delete k (o_props o)) (o_extensible o)]> h)
              else reject strict h
          | None => (Ret tt, h)
          end
      | None => (Throw TypeError, h)
      end
  | VUndefined | VNull => (Throw TypeError, h)
  | _ => (Ret tt, h)
  end.

(** [Object.defineProperty(v, k, {value: x, writable: w, configurable: c})] *)
Definition js_define (v : val) (k : string) (x : val) (w c : bool) : M unit := fun h =>
  match v with
  | VRef l =>
      match h !! l with
      | Some o =>
          match o_props o !! k with
          | Some p =>
              if p_configurable p
              then (Ret tt, <[l := set_own o k (mkProp x w c)]> h)
              else if c then (Throw TypeError, h)
              else if p_writable p
              then (Ret tt, <[l := set_own o k (mkProp x w false)]> h)
              else if bool_decide (x = p_value p) && negb w then (Ret tt, h)
              else (Throw TypeError, h)
          | None =>
              if o_extensible o
              then (Ret tt, <[l := set_own o k (mkProp x w c)]> h)
              else (Throw TypeError, h)
          end
      | None => (Throw TypeError, h)
      end
  | _ => (Throw TypeError, h)
  end.

Definition freeze_prop (p : prop) : prop := mkProp (p_value p) false false.

Definition seal_prop (p : prop) : prop := mkProp (p_value p) (p_writable p) false.

(** [Object.freeze(v)]: every own property becomes read-only and
    non-configurable and the object stops being extensible.  Only the object
    itself is touched, never the objects its properties refer to. *)
Definition Object_freeze (v : val) : M val := fun h =>
  match v with
  | VRef l =>
      match h !! l with
      | Some o => (Ret v, <[l := mkObj (o_class o) (freeze_prop <$> o_props o) false]> h)
      | None => (Throw TypeError, h)
      end
  | _ => (Ret v, h)
  end.

(** [Object.seal(v)] *)
Definition Object_seal (v : val) : M val := fun h =>
  match v with
  | VRef l =>
      match h !! l with
      | Some o => (Ret v, <[l := mkObj (o_class o) (seal_prop <$> o_props o) false]> h)
      | None => (Throw TypeError, h)
      end
  | _ => (Ret v, h)
  end.

(** [Object.isFrozen] *)
Definition is_frozen (o : obj) : bool :=
  negb (o_extensible o) &&
  bool_decide (map_Forall (fun _ p => p_writable p = false /\ p_configurable p = false) (o_props o)).

(** [Object.isFrozen(v)]; a value that is not an object counts as frozen. *)
Definition Object_isFrozen (v : val) : M val := fun h =>
  match v with
  | VRef l =>
      match h !! l with
      | Some o => (Ret (VBool (is_frozen o)), h)
      | None => (Throw TypeError, h)
      end
  | _ => (Ret (VBool true), h)
  end.


(** [a === b] on the values of [val]. *)
Definition strict_equals (a b : val) : bool := bool_decide (a = b).

(** ** The module [result.ts] *)

(** The argument of [match]: an object with the two handlers. *)
Record handlers : Type := mkHandlers {
  h_ok : val -> M val;
  h_err : val -> M val
}.

(** [const constructorMarker: PrivateConstructorMarker = {}], evaluated once
    when the module is loaded. *)
Definition module_init : M val := alloc (new_object CObject).

Section Module.

(** The module-level binding [constructorMarker]. *)
Variable constructorMarker : val.

Definition assertPrivateConstructor (marker : val) : M unit :=
  if negb (strict_equals marker constructorMarker)
  then throw (Error "This function can only be called by Result internals.")
  else ret tt.

Definition preventAbuse (obj : val) : M unit :=
  Object_freeze obj ;;;
  Object_seal obj ;;;
  ret tt.

(** [new Ok(value, marker)]: [this] is allocated, the initialisers of
    [type], [isOk] and [isErr] run, then the constructor body.  The field
    [value] is declared without an initialiser and gets its property from
    the assignment in the body.  Class bodies are strict code. *)
Definition Ok_constructor (value marker : val) : M val :=
  this <- alloc (new_object COk) ;;
  js_set true this "type" (VStr "ok") ;;;
  js_set true this "isOk" (VBool true) ;;;
  js_set true this "isErr" (VBool false) ;;;
  assertPrivateConstructor marker ;;;
  js_set true this "value" value ;;;
  preventAbuse this ;;;
  ret this.

(** [new Err(error, marker)] *)
Definition Err_constructor (error marker : val) : M val :=
  this <- alloc (new_object CErr) ;;
  js_set true this "type" (VStr "err") ;;;
  js_set true this "isOk" (VBool false) ;;;
  js_set true this "isErr" (VBool true) ;;;
  assertPrivateConstructor marker ;;;
  js_set true this "error" error ;;;
  preventAbuse this ;;;
  ret this.

Definition ok (value : val) : M val := Ok_constructor value constructorMarker.

Definition err (error : val) : M val := Err_constructor error constructorMarker.

(** *** Methods of [Ok] *)

Definition Ok_match (this : val) (h : handlers) : M val :=
  value <- js_get this "value" ;;
  h_ok h value.

Definition Ok_andThen (this : val) (fn : val -> M val) : M val :=
  value <- js_get this "value" ;;
  fn value.

Definition Ok_orElse (this : val) (_fn : val -> M val) : M val :=
  ret this.

Definition Ok_map (this : val) (fn : val -> M val) : M val :=
  value <- js_get this "value" ;;
  x <- fn value ;;
  ok x.

Definition Ok_mapErr (this : val) (_fn : val -> M val) : M val :=
  ret this.

(** *** Methods of [Err] *)

Definition Err_match (this : val) (h : handlers) : M val :=
  error <- js_get this "error" ;;
  h_err h error.

Definition Err_andThen (this : val) (_fn : val -> M val) : M val :=
  ret this.

Definition Err_orElse (this : val) (fn : val -> M val) : M val :=
  error <- js_get this "error" ;;
  fn error.

Definition Err_map (this : val) (_fn : val -> M val) : M val :=
  ret this.

Definition Err_mapErr (this : val) (fn : val -> M val) : M val :=
  error <- js_get this "error" ;;
  x <- fn error ;;
  err x.

(** *** Method calls on a [Result<V, E> = Ok<V, E> | Err<V, E>]

    [r.m(args)] finds [m] on the prototype of [r]; a receiver that is not
    an instance of either class has no such method and the call raises.
    The two prototypes are taken as the class declarations leave them. *)
Definition dispatch {A} (r : val) (on_Ok on_Err : val -> M A) : M A := fun h =>
  match r with
  | VRef l =>
      match h !! l with
      | Some o =>
          match o_class o with
          | COk => on_Ok r h
          | CErr => on_Err r h
          | CObject => (Throw TypeError, h)
          end
      | None => (Throw TypeError, h)
      end
  | _ => (Throw TypeError, h)
  end.

Definition Result_match (r : val) (h : handlers) : M val :=
  dispatch r (fun this => Ok_match this h) (fun this => Err_match this h).

Definition Result_andThen (r : val) (fn : val -> M val) : M val :=
  dispatch r (fun this => Ok_andThen this fn) (fun this => Err_andThen this fn).

Definition Result_orElse (r : val) (fn : val -> M val) : M val :=
  dispatch r (fun this => Ok_orElse this fn) (fun this => Err_orElse this fn).

Definition Result_map (r : val) (fn : val -> M val) : M val :=
  dispatch r (fun this => Ok_map this fn) (fun this => Err_map this fn).

Definition Result_mapErr (r : val) (fn : val -> M val) : M val :=
  dispatch r (fun this => Ok_mapErr this fn) (fun this => Err_mapErr this fn).

End Module.

(** ** What a caller can observe of an instance *)

(** The two variants, as a caller sees them after narrowing. *)
Inductive variant : Type :=
  | IsOk (value : val)
  | IsErr (error : val).

(** The object the constructor of [Ok] leaves in the heap. *)
Definition Ok_instance (value : val) : obj :=
  mkObj COk
    (<["value" := mkProp value false false]>
     (<["isErr" := mkProp (VBool false) false false]>
      (<["isOk" := mkProp (VBool true) false false]>
       (<["type" := mkProp (VStr "ok") false false]> ∅))))
    false.

(** The object the constructor of [Err] leaves in the heap. *)
Definition Err_instance (error : val) : obj :=
  mkObj CErr
    (<["error" := mkProp error false false]>
     (<["isErr" := mkProp (VBool true) false false]>
      (<["isOk" := mkProp (VBool false) false false]>
       (<["type" := mkProp (VStr "err") false false]> ∅))))
    false.

Definition instance_of (x : variant) : obj :=
  match x with
  | IsOk v => Ok_instance v
  | IsErr e => Err_instance e
  end.

(** [r] refers to an instance of variant [x] in [h]. *)
Definition holds (h : heap) (r : val) (x : variant) : Prop :=
  match r with
  | VRef l => h !! l = Some (instance_of x)
  | _ => False
  end.

(** Reading an instance back: its prototype and its payload. *)
Definition view (h : heap) (r : val) : option variant :=
  match r with
  | VRef l =>
      match h !! l with
      | Some o =>
          match o_class o with
          | COk => Some (IsOk (own_value o "value"))
          | CErr => Some (IsErr (own_value o "error"))
          | CObject => None
          end
      | None => None
      end
  | _ => None
  end.

(** The location a value refers to is allocated in [h]. *)
Definition allocated (h : heap) (v : val) : bool :=
  match v with
  | VRef l => bool_decide (l < length h)
  | _ => false
  end.

(** [r instanceof C] *)
Definition instanceof (h : heap) (r : val) (c : class) : bool :=
  match r with
  | VRef l =>
      match h !! l with
      | Some o => bool_decide (o_class o = c)
      | None => false
      end
  | _ => false
  end.

(** [this] after the three field initialisers of [Ok]: what a constructor
    call that fails its assertion leaves behind. *)
Definition Ok_fields : obj :=
  set_own (set_own (set_own (new_object COk)
    "type" (mkProp (VStr "ok") true true))
    "isOk" (mkProp (VBool true) true true))
    "isErr" (mkProp (VBool false) true true).

(** [this] after the three field initialisers of [Err]. *)
Definition Err_fields : obj :=
  set_own (set_own (set_own (new_object CErr)
    "type" (mkProp (VStr "err") true true))
    "isOk" (mkProp (VBool false) true true))
    "isErr" (mkProp (VBool true) true true).


(** ** Specification vocabulary *)

(** [c] leaves the object [o] stored at [l] exactly as it is, however [c]
    ends. *)
Definition keeps {A} (l : loc) (o : obj) (c : M A) : Prop :=
  forall h, h !! l = Some o -> (c h).2 !! l = Some o.

(** The supplied function never shrinks the heap (JavaScript code cannot
    deallocate). *)
Definition grows (fn : val -> M val) : Prop :=
  forall a h, length h <= length (fn a h).2.

(** Run from [h] on the receiver [r], [c] returns either [r] itself or an
    instance at a location that did not exist in [h]. *)
Definition receiver_or_fresh (h : heap) (r : val) (c : M val) : Prop :=
  forall r' h', c h = (Ret r', h') ->
    r' = r \/ (allocated h r' = false /\ exists x, holds h' r' x).

(** ** Caller code for the scenarios

    A heap as it is after the module was loaded and a few results were
    built, and some caller code to run against it. *)

(** The marker is the first object the module allocates. *)
Definition marker0 : val := VRef 0.

(** [ok(1)] at location 1, [err("bad")] at location 2, a plain mutable
    object [{n: 0}] at location 3. *)
Definition heap0 : heap :=
  [ new_object CObject;
    Ok_instance (VNum 1);
    Err_instance (VStr "bad");
    mkObj CObject {[ "n" := mkProp (VNum 0) true true ]} true ].

(** [x => ok(x + 1)] *)
Definition succ_ok (x : val) : M val :=
  match x with
  | VNum n => ok marker0 (VNum (n + 1))
  | _ => throw TypeError
  end.

(** [x => x + 1] *)
Definition succ (x : val) : M val :=
  match x with
  | VNum n => ret (VNum (n + 1))
  | _ => throw TypeError
  end.

(** [() => { throw "called" }], for a function that must not be called. *)
Definition flunk (_ : val) : M val := throw (Thrown (VStr "called")).

(** [x => { counter.n = counter.n + 1; return x }] *)
Definition counting (counter : val) (x : val) : M val :=
  n <- js_get counter "n" ;;
  match n with
  | VNum n => js_set true counter "n" (VNum (n + 1)) ;;; ret x
  | _ => throw TypeError
  end.

(** ** Caller code: method chains

    [r.m1(f1).m2(f2)...]: each call is made on what the previous one
    returned. *)

Inductive call : Type :=
  | CallAndThen (fn : val -> M val)
  | CallOrElse (fn : val -> M val)
  | CallMap (fn : val -> M val)
  | CallMapErr (fn : val -> M val).

Definition call_run (cm : val) (r : val) (c : call) : M val :=
  match c with
  | CallAndThen fn => Result_andThen r fn
  | CallOrElse fn => Result_orElse r fn
  | CallMap fn => Result_map cm r fn
  | CallMapErr fn => Result_mapErr cm r fn
  end.

Fixpoint chain (cm : val) (r : val) (cs : list call) : M val :=
  match cs with
  | [] => ret r
  | c :: cs' => r' <- call_run cm r c ;; chain cm r' cs'
  end.

(** The method acts on the channel the receiver is on: [andThen] and [map]
    on an [Ok], [orElse] and [mapErr] on an [Err]. *)
Definition applies (x : variant) (c : call) : bool :=
  match x, c with
  | IsOk _, (CallAndThen _ | CallMap _) => true
  | IsErr _, (CallOrElse _ | CallMapErr _) => true
  | _, _ => false
  end.

Definition same_variant (x y : variant) : bool :=
  match x, y with
  | IsOk _, IsOk _ => true
  | IsErr _, IsErr _ => true
  | _, _ => false
  end.

(** A supplied function that only computes: [x => f(x)] with [f] free of
    effects. *)
Definition pure_fn (f : val -> val) : val -> M val := fun v => ret (f v).

(** ** Symbolic execution of the runtime primitives *)

Lemma bind_ret {A B} (c : M A) (k : A -> M B) h a h' :
  c h = (Ret a, h') -> bind c k h = k a h'.
Proof. intros E. unfold bind. by rewrite E. Qed.

Lemma bind_throw {A B} (c : M A) (k : A -> M B) h e h' :
  c h = (Throw e, h') -> bind c k h = (Throw e, h').
Proof. intros E. unfold bind. by rewrite E. Qed.

Lemma bind_assoc {A B C} (c : M A) (k : A -> M B) (k' : B -> M C) h :
  bind (bind c k) k' h = bind c (fun a => bind (k a) k') h.
Proof. unfold bind. destruct (c h) as [[a|e] h1]; reflexivity. Qed.

Lemma lookup_last (h : heap) o : (h ++ [o]) !! length h = Some o.
Proof. apply list_lookup_middle. reflexivity. Qed.

Lemma insert_last (h : heap) o o' : <[length h := o']> (h ++ [o]) = h ++ [o'].
Proof.
  rewrite insert_app_r_alt by lia.
  replace (length h - length h) with 0 by lia. reflexivity.
Qed.

(** A write to a property that the newest object does not yet have. *)
Lemma js_set_last_new strict (h : heap) o k x :
  o_props o !! k = None -> o_extensible o = true ->
  js_set strict (VRef (length h)) k x (h ++ [o])
  = (Ret tt, h ++ [set_own o k (mkProp x true true)]).
Proof.
  intros Hk He. unfold js_set.
  rewrite lookup_last, Hk, He, insert_last. reflexivity.
Qed.

Lemma Object_freeze_last (h : heap) o :
  Object_freeze (VRef (length h)) (h ++ [o])
  = (Ret (VRef (length h)), h ++ [mkObj (o_class o) (freeze_prop <$> o_props o) false]).
Proof. unfold Object_freeze. rewrite lookup_last, insert_last. reflexivity. Qed.

Lemma Object_seal_last (h : heap) o :
  Object_seal (VRef (length h)) (h ++ [o])
  = (Ret (VRef (length h)), h ++ [mkObj (o_class o) (seal_prop <$> o_props o) false]).
Proof. unfold Object_seal. rewrite lookup_last, insert_last. reflexivity. Qed.

Lemma preventAbuse_last (h : heap) o :
  preventAbuse (VRef (length h)) (h ++ [o])
  = (Ret tt, h ++ [mkObj (o_class o) (seal_prop <$> (freeze_prop <$> o_props o)) false]).
Proof.
  unfold preventAbuse.
  rewrite (bind_ret _ _ _ _ _ (Object_freeze_last h o)).
  rewrite (bind_ret _ _ _ _ _ (Object_seal_last h _)).
  reflexivity.
Qed.

Lemma assertPrivateConstructor_marker cm h :
  assertPrivateConstructor cm cm h = (Ret tt, h).
Proof.
  unfold assertPrivateConstructor, strict_equals.
  rewrite bool_decide_eq_true_2 by reflexivity. reflexivity.
Qed.

Lemma assertPrivateConstructor_other cm marker h :
  marker <> cm ->
  assertPrivateConstructor cm marker h
  = (Throw (Error "This function can only be called by Result internals."), h).
Proof.
  intros Hne. unfold assertPrivateConstructor, strict_equals.
  rewrite bool_decide_eq_false_2 by exact Hne. reflexivity.
Qed.

Ltac step_set :=
  erewrite bind_ret; [| apply js_set_last_new; [vm_compute; reflexivity | reflexivity]].

Lemma ok_run cm value h :
  ok cm value h = (Ret (VRef (length h)), h ++ [Ok_instance value]).
Proof.
  unfold ok, Ok_constructor, alloc.
  unfold bind at 1.
  do 3 step_set.
  erewrite bind_ret; [| apply assertPrivateConstructor_marker].
  step_set.
  erewrite bind_ret; [| apply preventAbuse_last].
  reflexivity.
Qed.

Lemma err_run cm error h :
  err cm error h = (Ret (VRef (length h)), h ++ [Err_instance error]).
Proof.
  unfold err, Err_constructor, alloc.
  unfold bind at 1.
  do 3 step_set.
  erewrite bind_ret; [| apply assertPrivateConstructor_marker].
  step_set.
  erewrite bind_ret; [| apply preventAbuse_last].
  reflexivity.
Qed.

(** Without the marker the constructor stops at the assertion: the fields
    initialised so far stay on an object nobody holds a reference to. *)
Lemma Ok_constructor_guard cm value marker h :
  marker <> cm ->
  Ok_constructor cm value marker h
  = (Throw (Error "This function can only be called by Result internals."),
     h ++ [Ok_fields]).
Proof.
  intros Hne. unfold Ok_constructor, alloc.
  unfold bind at 1.
  do 3 step_set.
  erewrite bind_throw; [| apply assertPrivateConstructor_other; exact Hne].
  reflexivity.
Qed.

Lemma Err_constructor_guard cm error marker h :
  marker <> cm ->
  Err_constructor cm error marker h
  = (Throw (Error "This function can only be called by Result internals."),
     h ++ [Err_fields]).
Proof.
  intros Hne. unfold Err_constructor, alloc.
  unfold bind at 1.
  do 3 step_set.
  erewrite bind_throw; [| apply assertPrivateConstructor_other; exact Hne].
  reflexivity.
Qed.

(** ** Facts about instances *)

Lemma instance_frozen x : is_frozen (instance_of x) = true.
Proof. destruct x; vm_compute; reflexivity. Qed.

Lemma holds_view h r x : holds h r x -> view h r = Some x.
Proof.
  destruct r; simpl; try contradiction.
  intros ->. destruct x; reflexivity.
Qed.

Lemma holds_last h x : holds (h ++ [instance_of x]) (VRef (length h)) x.
Proof. simpl. apply lookup_last. Qed.

Lemma view_inv h r x :
  view h r = Some x ->
  exists l o, r = VRef l /\ h !! l = Some o /\
    match x with
    | IsOk v => o_class o = COk /\ own_value o "value" = v
    | IsErr e => o_class o = CErr /\ own_value o "error" = e
    end.
Proof.
  destruct r as [| | | | |l]; simpl; try discriminate.
  destruct (h !! l) as [o|] eqn:Hl; try discriminate.
  destruct (o_class o) eqn:Hc; try discriminate;
    intros [= <-]; exists l, o; auto.
Qed.

Lemma js_get_at h l o k :
  h !! l = Some o -> js_get (VRef l) k h = (Ret (own_value o k), h).
Proof. intros Hl. unfold js_get. by rewrite Hl. Qed.

Lemma dispatch_Ok {A} (on_Ok on_Err : val -> M A) h l o :
  h !! l = Some o -> o_class o = COk ->
  dispatch (VRef l) on_Ok on_Err h = on_Ok (VRef l) h.
Proof. intros Hl Hc. unfold dispatch. by rewrite Hl, Hc. Qed.

Lemma dispatch_Err {A} (on_Ok on_Err : val -> M A) h l o :
  h !! l = Some o -> o_class o = CErr ->
  dispatch (VRef l) on_Ok on_Err h = on_Err (VRef l) h.
Proof. intros Hl Hc. unfold dispatch. by rewrite Hl, Hc. Qed.

(** ** The methods, run on an instance *)

Section Methods.

Variable cm : val.

Lemma Result_match_run r x hs h :
  view h r = Some x ->
  Result_match r hs h
  = match x with IsOk v => h_ok hs v h | IsErr e => h_err hs e h end.
Proof.
  intros Hv. destruct (view_inv _ _ _ Hv) as (l & o & -> & Hl & Hx).
  unfold Result_match. destruct x; destruct Hx as [Hc <-].
  - erewrite dispatch_Ok by eassumption. unfold Ok_match.
    by erewrite bind_ret by (by apply js_get_at).
  - erewrite dispatch_Err by eassumption. unfold Err_match.
    by erewrite bind_ret by (by apply js_get_at).
Qed.

Lemma Result_andThen_run r x fn h :
  view h r = Some x ->
  Result_andThen r fn h
  = match x with IsOk v => fn v h | IsErr _ => (Ret r, h) end.
Proof.
  intros Hv. destruct (view_inv _ _ _ Hv) as (l & o & -> & Hl & Hx).
  unfold Result_andThen. destruct x; destruct Hx as [Hc <-].
  - erewrite dispatch_Ok by eassumption. unfold Ok_andThen.
    by erewrite bind_ret by (by apply js_get_at).
  - by erewrite dispatch_Err by eassumption.
Qed.

Lemma Result_orElse_run r x fn h :
  view h r = Some x ->
  Result_orElse r fn h
  = match x with IsOk _ => (Ret r, h) | IsErr e => fn e h end.
Proof.
  intros Hv. destruct (view_inv _ _ _ Hv) as (l & o & -> & Hl & Hx).
  unfold Result_orElse. destruct x; destruct Hx as [Hc <-].
  - by erewrite dispatch_Ok by eassumption.
  - erewrite dispatch_Err by eassumption. unfold Err_orElse.
    by erewrite bind_ret by (by apply js_get_at).
Qed.

Lemma Result_map_run r x fn h :
  view h r = Some x ->
  Result_map cm r fn h
  = match x with
    | IsOk v => (y <- fn v ;; ok cm y) h
    | IsErr _ => (Ret r, h)
    end.
Proof.
  intros Hv. destruct (view_inv _ _ _ Hv) as (l & o & -> & Hl & Hx).
  unfold Result_map. destruct x; destruct Hx as [Hc <-].
  - erewrite dispatch_Ok by eassumption. unfold Ok_map.
    by erewrite bind_ret by (by apply js_get_at).
  - by erewrite dispatch_Err by eassumption.
Qed.

Lemma Result_mapErr_run r x fn h :
  view h r = Some x ->
  Result_mapErr cm r fn h
  = match x with
    | IsOk _ => (Ret r, h)
    | IsErr e => (y <- fn e ;; err cm y) h
    end.
Proof.
  intros Hv. destruct (view_inv _ _ _ Hv) as (l & o & -> & Hl & Hx).
  unfold Result_mapErr. destruct x; destruct Hx as [Hc <-].
  - by erewrite dispatch_Ok by eassumption.
  - erewrite dispatch_Err by eassumption. unfold Err_mapErr.
    by erewrite bind_ret by (by apply js_get_at).
Qed.

End Methods.

(** ** Frame reasoning: what a computation leaves alone *)

Lemma frozen_inv o :
  is_frozen o = true ->
  o_extensible o = false /\
  forall k p, o_props o !! k = Some p -> p_writable p = false /\ p_configurable p = false.
Proof.
  unfold is_frozen. intros [He Hp]%andb_true_iff.
  apply negb_true_iff in He. apply bool_decide_eq_true in Hp.
  split; [exact He|]. intros k p Hk. exact (Hp k p Hk).
Qed.

Lemma frozen_fmap_freeze o :
  is_frozen o = true -> mkObj (o_class o) (freeze_prop <$> o_props o) false = o.
Proof.
  intros [He Hp]%frozen_inv. destruct o as [c ps e]; simpl in *. subst e.
  f_equal. apply map_eq. intros k. rewrite lookup_fmap.
  destruct (ps !! k) as [p|] eqn:Hk; simpl; [|reflexivity].
  destruct (Hp k p Hk) as [Hw Hc]. destruct p; simpl in *. by subst.
Qed.

Lemma frozen_fmap_seal o :
  is_frozen o = true -> mkObj (o_class o) (seal_prop <$> o_props o) false = o.
Proof.
  intros [He Hp]%frozen_inv. destruct o as [c ps e]; simpl in *. subst e.
  f_equal. apply map_eq. intros k. rewrite lookup_fmap.
  destruct (ps !! k) as [p|] eqn:Hk; simpl; [|reflexivity].
  destruct (Hp k p Hk) as [Hw Hc]. destruct p; simpl in *. by subst.
Qed.

Section Frame.

Variables (l : loc) (o : obj).

Lemma keeps_ret {A} (a : A) : keeps l o (ret a).
Proof. intros h Hl. exact Hl. Qed.

Lemma keeps_throw {A} e : keeps l o (throw (A := A) e).
Proof. intros h Hl. exact Hl. Qed.

Lemma keeps_bind {A B} (c : M A) (k : A -> M B) :
  keeps l o c -> (forall a, keeps l o (k a)) -> keeps l o (bind c k).
Proof.
  intros Hc Hk h Hl. specialize (Hc h Hl). unfold bind.
  destruct (c h) as [[a|e] h1]; simpl in *; [by apply Hk | exact Hc].
Qed.

Lemma keeps_alloc o' : keeps l o (alloc o').
Proof. intros h Hl. simpl. by apply lookup_app_l_Some. Qed.

Lemma keeps_js_get v k : keeps l o (js_get v k).
Proof.
  intros h Hl. unfold js_get.
  destruct v as [| | | | |l0]; simpl; try exact Hl.
  destruct (h !! l0); exact Hl.
Qed.

Lemma keeps_reject strict : keeps l o (reject strict).
Proof. intros h Hl. by destruct strict. Qed.

Hypothesis Hfrozen : is_frozen o = true.

(** Writes aimed at the frozen object itself are rejected; writes aimed
    elsewhere update another location. *)
Lemma keeps_js_set strict v k x : keeps l o (js_set strict v k x).
Proof.
  destruct (frozen_inv o Hfrozen) as [He Hp].
  intros h Hl. unfold js_set.
  destruct v as [| | | | |l0]; simpl; try exact Hl;
    try by apply keeps_reject.
  destruct (decide (l0 = l)) as [->|Hne].
  - rewrite Hl. destruct (o_props o !! k) as [p|] eqn:Hk.
    + destruct (Hp k p Hk) as [-> _]. by apply keeps_reject.
    + rewrite He. by apply keeps_reject.
  - destruct (h !! l0) as [o0|]; [|exact Hl].
    destruct (o_props o0 !! k) as [p|].
    + destruct (p_writable p); [|by apply keeps_reject].
      simpl. by rewrite list_lookup_insert_ne.
    + destruct (o_extensible o0); [|by apply keeps_reject].
      simpl. by rewrite list_lookup_insert_ne.
Qed.

Lemma keeps_js_delete strict v k : keeps l o (js_delete strict v k).
Proof.
  destruct (frozen_inv o Hfrozen) as [He Hp].
  intros h Hl. unfold js_delete.
  destruct v as [| | | | |l0]; simpl; try exact Hl.
  destruct (decide (l0 = l)) as [->|Hne].
  - rewrite Hl. destruct (o_props o !! k) as [p|] eqn:Hk; [|exact Hl].
    destruct (Hp k p Hk) as [_ ->]. by apply keeps_reject.
  - destruct (h !! l0) as [o0|]; [|exact Hl].
    destruct (o_props o0 !! k) as [p|]; [|exact Hl].
    destruct (p_configurable p); [|by apply keeps_reject].
    simpl. by rewrite list_lookup_insert_ne.
Qed.

Lemma keeps_js_define v k x w c : keeps l o (js_define v k x w c).
Proof.
  destruct (frozen_inv o Hfrozen) as [He Hp].
  intros h Hl. unfold js_define.
  destruct v as [| | | | |l0]; simpl; try exact Hl.
  destruct (decide (l0 = l)) as [->|Hne].
  - rewrite Hl. destruct (o_props o !! k) as [p|] eqn:Hk.
    + destruct (Hp k p Hk) as [-> ->].
      destruct c; [exact Hl|].
      destruct (bool_decide (x = p_value p) && negb w); exact Hl.
    + rewrite He. exact Hl.
  - destruct (h !! l0) as [o0|]; [|exact Hl].
    destruct (o_props o0 !! k) as [p|].
    + destruct (p_configurable p); [simpl; by rewrite list_lookup_insert_ne|].
      destruct c; [exact Hl|].
      destruct (p_writable p); [simpl; by rewrite list_lookup_insert_ne|].
      destruct (bool_decide (x = p_value p) && negb w); exact Hl.
    + destruct (o_extensible o0); [|exact Hl].
      simpl. by rewrite list_lookup_insert_ne.
Qed.

Lemma keeps_Object_freeze v : keeps l o (Object_freeze v).
Proof.
  intros h Hl. unfold Object_freeze.
  destruct v as [| | | | |l0]; simpl; try exact Hl.
  destruct (decide (l0 = l)) as [->|Hne].
  - rewrite Hl. simpl. rewrite frozen_fmap_freeze by exact Hfrozen.
    by rewrite list_insert_id.
  - destruct (h !! l0) as [o0|]; [|exact Hl].
    simpl. by rewrite list_lookup_insert_ne.
Qed.

Lemma keeps_Object_seal v : keeps l o (Object_seal v).
Proof.
  intros h Hl. unfold Object_seal.
  destruct v as [| | | | |l0]; simpl; try exact Hl.
  destruct (decide (l0 = l)) as [->|Hne].
  - rewrite Hl. simpl. rewrite frozen_fmap_seal by exact Hfrozen.
    by rewrite list_insert_id.
  - destruct (h !! l0) as [o0|]; [|exact Hl].
    simpl. by rewrite list_lookup_insert_ne.
Qed.

End Frame.

(** The module's own code never writes to an object that already exists:
    whatever the supplied functions leave alone, the methods leave alone. *)
Section ModuleFrame.

Variables (cm : val) (l : loc) (o : obj).

Lemma keeps_Ok_constructor value marker : keeps l o (Ok_constructor cm value marker).
Proof.
  intros h Hl. destruct (decide (marker = cm)) as [->|Hne].
  - fold (ok cm value). rewrite ok_run. simpl. by apply lookup_app_l_Some.
  - rewrite Ok_constructor_guard by exact Hne. simpl. by apply lookup_app_l_Some.
Qed.

Lemma keeps_Err_constructor error marker : keeps l o (Err_constructor cm error marker).
Proof.
  intros h Hl. destruct (decide (marker = cm)) as [->|Hne].
  - fold (err cm error). rewrite err_run. simpl. by apply lookup_app_l_Some.
  - rewrite Err_constructor_guard by exact Hne. simpl. by apply lookup_app_l_Some.
Qed.

Lemma keeps_dispatch {A} r (on_Ok on_Err : val -> M A) :
  (forall this, keeps l o (on_Ok this)) ->
  (forall this, keeps l o (on_Err this)) ->
  keeps l o (dispatch r on_Ok on_Err).
Proof.
  intros HOk HErr h Hl. unfold dispatch.
  destruct r as [| | | | |l0]; simpl; try exact Hl.
  destruct (h !! l0) as [o0|]; [|exact Hl].
  destruct (o_class o0); [exact Hl | by apply HOk | by apply HErr].
Qed.

Lemma keeps_Result_match r hs :
  (forall a, keeps l o (h_ok hs a)) -> (forall a, keeps l o (h_err hs a)) ->
  keeps l o (Result_match r hs).
Proof.
  intros Hok Herr. apply keeps_dispatch; intros this;
    (apply keeps_bind; [apply keeps_js_get | assumption]).
Qed.

Lemma keeps_Result_andThen r fn :
  (forall a, keeps l o (fn a)) -> keeps l o (Result_andThen r fn).
Proof.
  intros Hfn. apply keeps_dispatch; intros this.
  - apply keeps_bind; [apply keeps_js_get | assumption].
  - apply keeps_ret.
Qed.

Lemma keeps_Result_orElse r fn :
  (forall a, keeps l o (fn a)) -> keeps l o (Result_orElse r fn).
Proof.
  intros Hfn. apply keeps_dispatch; intros this.
  - apply keeps_ret.
  - apply keeps_bind; [apply keeps_js_get | assumption].
Qed.

Lemma keeps_Result_map r fn :
  (forall a, keeps l o (fn a)) -> keeps l o (Result_map cm r fn).
Proof.
  intros Hfn. apply keeps_dispatch; intros this.
  - apply keeps_bind; [apply keeps_js_get | intros v].
    apply keeps_bind; [apply Hfn | intros y; apply keeps_Ok_constructor].
  - apply keeps_ret.
Qed.

Lemma keeps_Result_mapErr r fn :
  (forall a, keeps l o (fn a)) -> keeps l o (Result_mapErr cm r fn).
Proof.
  intros Hfn. apply keeps_dispatch; intros this.
  - apply keeps_ret.
  - apply keeps_bind; [apply keeps_js_get | intros v].
    apply keeps_bind; [apply Hfn | intros y; apply keeps_Err_constructor].
Qed.

End ModuleFrame.

(** ** Scenarios *)

Example heap0_from_code :
  (module_init ;;; ok marker0 (VNum 1) ;;; err marker0 (VStr "bad")) []
  = (Ret (VRef 2), firstn 3 heap0).
Proof. vm_compute. reflexivity. Qed.

Example scenario_andThen_ok :
  (r <- Result_andThen (VRef 1) succ_ok ;; js_get r "value") heap0
  = (Ret (VNum 2), heap0 ++ [Ok_instance (VNum 2)]).
Proof. vm_compute. reflexivity. Qed.

Example scenario_andThen_err :
  Result_andThen (VRef 2) flunk heap0 = (Ret (VRef 2), heap0).
Proof. vm_compute. reflexivity. Qed.

Example scenario_map_mapErr :
  (r <- Result_map marker0 (VRef 1) succ ;; Result_mapErr marker0 r ret) heap0
  = (Ret (VRef 4), heap0 ++ [Ok_instance (VNum 2)]).
Proof. vm_compute. reflexivity. Qed.

(** The handler that is called runs once, the other one not at all. *)
Example scenario_match_counts :
  (Result_match (VRef 1) (mkHandlers (counting (VRef 3)) flunk) ;;;
   js_get (VRef 3) "n") heap0
  = (Ret (VNum 1),
     <[3 := mkObj CObject {[ "n" := mkProp (VNum 1) true true ]} true]> heap0).
Proof. vm_compute. reflexivity. Qed.

(** ** The factories *)

(** C1: for every value [v], [ok(v)] returns an instance of [Ok] whose
    [type] is ["ok"], whose [isOk] is [true], whose [isErr] is [false] and
    whose [value] is [v]; for every error [e], [err(e)] returns an instance
    of [Err] whose [type] is ["err"], whose [isOk] is [false], whose [isErr]
    is [true] and whose [error] is [e]. *)
Theorem ok_err_discriminants cm v e h :
  (exists r h', ok cm v h = (Ret r, h') /\
     instanceof h' r COk = true /\
     js_get r "type" h' = (Ret (VStr "ok"), h') /\
     js_get r "isOk" h' = (Ret (VBool true), h') /\
     js_get r "isErr" h' = (Ret (VBool false), h') /\
     js_get r "value" h' = (Ret v, h')) /\
  (exists r h', err cm e h = (Ret r, h') /\
     instanceof h' r CErr = true /\
     js_get r "type" h' = (Ret (VStr "err"), h') /\
     js_get r "isOk" h' = (Ret (VBool false), h') /\
     js_get r "isErr" h' = (Ret (VBool true), h') /\
     js_get r "error" h' = (Ret e, h')).
Proof.
  split.
  - exists (VRef (length h)), (h ++ [Ok_instance v]).
    split; [apply ok_run|].
    unfold instanceof. rewrite lookup_last.
    repeat split; by rewrite (js_get_at _ _ _ _ (lookup_last h _)).
  - exists (VRef (length h)), (h ++ [Err_instance e]).
    split; [apply err_run|].
    unfold instanceof. rewrite lookup_last.
    repeat split; by rewrite (js_get_at _ _ _ _ (lookup_last h _)).
Qed.

(** ** [match] *)

(** C2: [r.match({ok, err})] is one call of one handler: on an [Ok] it is
    the call of [ok] on the stored value, on an [Err] the call of [err] on
    the stored error; its outcome and its effects are those of that call,
    and the other handler, whatever it is, plays no part. *)
Theorem match_invokes_one_handler r x hs h :
  view h r = Some x ->
  match x with
  | IsOk v =>
      Result_match r hs h = h_ok hs v h /\
      forall other, Result_match r (mkHandlers (h_ok hs) other) h = h_ok hs v h
  | IsErr e =>
      Result_match r hs h = h_err hs e h /\
      forall other, Result_match r (mkHandlers other (h_err hs)) h = h_err hs e h
  end.
Proof.
  intros Hv. destruct x as [v|e]; split.
  - by rewrite (Result_match_run r _ hs h Hv).
  - intros other. by rewrite (Result_match_run r _ _ h Hv).
  - by rewrite (Result_match_run r _ hs h Hv).
  - intros other. by rewrite (Result_match_run r _ _ h Hv).
Qed.

Lemma match_invokes_one_handler_witness :
  view heap0 (VRef 1) = Some (IsOk (VNum 1)) /\
  Result_match (VRef 1) (mkHandlers (counting (VRef 3)) flunk) heap0
  = counting (VRef 3) (VNum 1) heap0.
Proof.
  split; [reflexivity|].
  apply (match_invokes_one_handler (VRef 1) (IsOk (VNum 1))
           (mkHandlers (counting (VRef 3)) flunk) heap0).
  reflexivity.
Defined.

(** ** [andThen] and [orElse] *)

(** C3: on an [Ok] holding [v], [andThen(f)] is the call [f(v)]: it returns
    what that call returns and leaves the heap as that call leaves it; on an
    [Err] it returns the receiver, changes nothing, and does not depend on
    [f].  The same holds for receivers taken straight from the factories. *)
Theorem andThen_spec cm r x fn h :
  view h r = Some x ->
  match x with
  | IsOk v => Result_andThen r fn h = fn v h
  | IsErr _ => forall fn', Result_andThen r fn' h = (Ret r, h)
  end /\
  (forall v h0, (r0 <- ok cm v ;; Result_andThen r0 fn) h0 = (ok cm v ;;; fn v) h0) /\
  (forall e h0, (r0 <- err cm e ;; Result_andThen r0 fn) h0 = err cm e h0).
Proof.
  intros Hv. split; [|split].
  - destruct x as [v|e].
    + by rewrite (Result_andThen_run r _ fn h Hv).
    + intros fn'. by rewrite (Result_andThen_run r _ fn' h Hv).
  - intros v h0. unfold bind. rewrite ok_run.
    change (Ok_instance v) with (instance_of (IsOk v)).
    by rewrite (Result_andThen_run _ (IsOk v) fn _ (holds_view _ _ _ (holds_last h0 (IsOk v)))).
  - intros e h0. unfold bind. rewrite err_run.
    change (Err_instance e) with (instance_of (IsErr e)).
    by rewrite (Result_andThen_run _ (IsErr e) fn _ (holds_view _ _ _ (holds_last h0 (IsErr e)))).
Qed.

Lemma andThen_spec_witness :
  view heap0 (VRef 2) = Some (IsErr (VStr "bad")) /\
  forall fn', Result_andThen (VRef 2) fn' heap0 = (Ret (VRef 2), heap0).
Proof.
  split; [reflexivity|].
  apply (andThen_spec marker0 (VRef 2) (IsErr (VStr "bad")) flunk heap0).
  reflexivity.
Defined.

(** C4: on an [Err] holding [e], [orElse(f)] is the call [f(e)]: it returns
    what that call returns and leaves the heap as that call leaves it; on an
    [Ok] it returns the receiver, changes nothing, and does not depend on
    [f]. *)
Theorem orElse_spec cm r x fn h :
  view h r = Some x ->
  match x with
  | IsOk _ => forall fn', Result_orElse r fn' h = (Ret r, h)
  | IsErr e => Result_orElse r fn h = fn e h
  end /\
  (forall e h0, (r0 <- err cm e ;; Result_orElse r0 fn) h0 = (err cm e ;;; fn e) h0) /\
  (forall v h0, (r0 <- ok cm v ;; Result_orElse r0 fn) h0 = ok cm v h0).
Proof.
  intros Hv. split; [|split].
  - destruct x as [v|e].
    + intros fn'. by rewrite (Result_orElse_run r _ fn' h Hv).
    + by rewrite (Result_orElse_run r _ fn h Hv).
  - intros e h0. unfold bind. rewrite err_run.
    change (Err_instance e) with (instance_of (IsErr e)).
    by rewrite (Result_orElse_run _ (IsErr e) fn _ (holds_view _ _ _ (holds_last h0 (IsErr e)))).
  - intros v h0. unfold bind. rewrite ok_run.
    change (Ok_instance v) with (instance_of (IsOk v)).
    by rewrite (Result_orElse_run _ (IsOk v) fn _ (holds_view _ _ _ (holds_last h0 (IsOk v)))).
Qed.

Lemma orElse_spec_witness :
  view heap0 (VRef 2) = Some (IsErr (VStr "bad")) /\
  Result_orElse (VRef 2) (fun e => ok marker0 e) heap0
  = ok marker0 (VStr "bad") heap0.
Proof.
  split; [reflexivity|].
  apply (orElse_spec marker0 (VRef 2) (IsErr (VStr "bad")) (fun e => ok marker0 e) heap0).
  reflexivity.
Defined.

(** ** [map] and [mapErr] *)

Lemma fresh_not_allocated (h : heap) : allocated h (VRef (length h)) = false.
Proof. simpl. apply bool_decide_eq_false_2. lia. Qed.

(** C5: on an [Ok] holding [v], [map(f)] calls [f(v)] and passes what it
    returns to [ok]: the result is an [Ok] instance wrapping it at a location
    that did not exist when [f] returned, and [mapErr] returns the receiver,
    changes nothing and does not depend on its argument; on an [Err] holding
    [e] the roles of [map] and [mapErr] are exchanged, with [err] building
    the new instance. *)
Theorem map_mapErr_spec cm r x fn h :
  view h r = Some x ->
  match x with
  | IsOk v =>
      Result_map cm r fn h = (y <- fn v ;; ok cm y) h /\
      (forall y h1, fn v h = (Ret y, h1) ->
         Result_map cm r fn h = (Ret (VRef (length h1)), h1 ++ [Ok_instance y]) /\
         allocated h1 (VRef (length h1)) = false /\
         holds (h1 ++ [Ok_instance y]) (VRef (length h1)) (IsOk y)) /\
      (forall fn', Result_mapErr cm r fn' h = (Ret r, h))
  | IsErr e =>
      Result_mapErr cm r fn h = (y <- fn e ;; err cm y) h /\
      (forall y h1, fn e h = (Ret y, h1) ->
         Result_mapErr cm r fn h = (Ret (VRef (length h1)), h1 ++ [Err_instance y]) /\
         allocated h1 (VRef (length h1)) = false /\
         holds (h1 ++ [Err_instance y]) (VRef (length h1)) (IsErr y)) /\
      (forall fn', Result_map cm r fn' h = (Ret r, h))
  end.
Proof.
  intros Hv. destruct x as [v|e].
  - split; [by rewrite (Result_map_run cm r _ fn h Hv)|]. split.
    + intros y h1 Hfn. rewrite (Result_map_run cm r _ fn h Hv).
      rewrite (bind_ret _ _ _ _ _ Hfn), ok_run.
      split; [reflexivity|]. split; [apply fresh_not_allocated|].
      apply (holds_last h1 (IsOk y)).
    + intros fn'. by rewrite (Result_mapErr_run cm r _ fn' h Hv).
  - split; [by rewrite (Result_mapErr_run cm r _ fn h Hv)|]. split.
    + intros y h1 Hfn. rewrite (Result_mapErr_run cm r _ fn h Hv).
      rewrite (bind_ret _ _ _ _ _ Hfn), err_run.
      split; [reflexivity|]. split; [apply fresh_not_allocated|].
      apply (holds_last h1 (IsErr y)).
    + intros fn'. by rewrite (Result_map_run cm r _ fn' h Hv).
Qed.

Lemma map_mapErr_spec_witness :
  view heap0 (VRef 1) = Some (IsOk (VNum 1)) /\
  Result_map marker0 (VRef 1) succ heap0
  = (Ret (VRef 4), heap0 ++ [Ok_instance (VNum 2)]).
Proof.
  split; [reflexivity|].
  destruct (map_mapErr_spec marker0 (VRef 1) (IsOk (VNum 1)) succ heap0 eq_refl)
    as (_ & Hfresh & _).
  apply (Hfresh (VNum 2) heap0). reflexivity.
Defined.

(** ** [andThen] as a bind *)

(** C6: [andThen] satisfies the monad laws on the success channel.  Left
    identity: [ok(v).andThen(f)] is the call [f(v)].  Right identity:
    [r.andThen(ok)] returns a result with the variant and the payload of [r]
    (an equal instance: the receiver itself for an [Err], a new [Ok] for an
    [Ok]).  Associativity: [r.andThen(f).andThen(g)] and
    [r.andThen(x => f(x).andThen(g))] are the same computation. *)
Theorem andThen_monad_laws cm r x f g h :
  view h r = Some x ->
  (forall v h0, (r0 <- ok cm v ;; Result_andThen r0 f) h0 = (ok cm v ;;; f v) h0) /\
  (forall v, x = IsOk v -> Result_andThen r f h = f v h) /\
  (exists r' h', Result_andThen r (ok cm) h = (Ret r', h') /\
     view h' r' = Some x /\
     (holds h r x -> holds h' r' x)) /\
  (r1 <- Result_andThen r f ;; Result_andThen r1 g) h
  = Result_andThen r (fun v => r1 <- f v ;; Result_andThen r1 g) h.
Proof.
  intros Hv. repeat split.
  - intros v h0. unfold bind. rewrite ok_run.
    change (Ok_instance v) with (instance_of (IsOk v)).
    by rewrite (Result_andThen_run _ (IsOk v) f _ (holds_view _ _ _ (holds_last h0 (IsOk v)))).
  - intros v ->. by rewrite (Result_andThen_run r _ f h Hv).
  - rewrite (Result_andThen_run r x (ok cm) h Hv). destruct x as [v|e].
    + exists (VRef (length h)), (h ++ [Ok_instance v]).
      split; [apply ok_run|]. split.
      * apply holds_view, (holds_last h (IsOk v)).
      * intros _. apply (holds_last h (IsOk v)).
    + exists r, h. auto.
  - rewrite (Result_andThen_run r x _ h Hv).
    unfold bind at 1. rewrite (Result_andThen_run r x f h Hv).
    destruct x as [v|e]; [reflexivity|].
    by rewrite (Result_andThen_run r _ g h Hv).
Qed.

Lemma andThen_monad_laws_witness :
  view heap0 (VRef 1) = Some (IsOk (VNum 1)) /\
  (r1 <- Result_andThen (VRef 1) succ_ok ;; Result_andThen r1 succ_ok) heap0
  = Result_andThen (VRef 1) (fun v => r1 <- succ_ok v ;; Result_andThen r1 succ_ok) heap0.
Proof.
  split; [reflexivity|].
  apply (andThen_monad_laws marker0 (VRef 1) (IsOk (VNum 1)) succ_ok succ_ok heap0).
  reflexivity.
Defined.

(** ** Restricted construction *)

(** C8: a constructor called with anything but the module's marker throws
    at the assertion: the payload is never stored, the half-built object is
    left where nobody can reach it and no instance is returned; [ok] and
    [err], which pass the marker, return normally for every argument and
    every heap. *)
Theorem constructors_guarded cm marker :
  marker <> cm ->
  (forall v h,
     Ok_constructor cm v marker h
     = (Throw (Error "This function can only be called by Result internals."),
        h ++ [Ok_fields])) /\
  (forall e h,
     Err_constructor cm e marker h
     = (Throw (Error "This function can only be called by Result internals."),
        h ++ [Err_fields])) /\
  (forall v h, returns (ok cm v) h) /\
  (forall e h, returns (err cm e) h).
Proof.
  intros Hne. repeat split.
  - intros v h. by apply Ok_constructor_guard.
  - intros e h. by apply Err_constructor_guard.
  - intros v h. eexists _, _. apply ok_run.
  - intros e h. eexists _, _. apply err_run.
Qed.

Lemma constructors_guarded_witness :
  VUndefined <> marker0 /\
  Ok_constructor marker0 (VNum 4) VUndefined heap0
  = (Throw (Error "This function can only be called by Result internals."),
     heap0 ++ [Ok_fields]).
Proof.
  split; [discriminate|].
  apply (constructors_guarded marker0 VUndefined). discriminate.
Defined.

(** ** Totality *)

(** C9: on a receiver that is an instance of either variant, each of
    [match], [andThen], [orElse], [map] and [mapErr] returns normally
    provided the one function it calls returns normally on the stored payload
    in the current heap; nothing is asked of that function on other
    arguments or in other heaps, nor of a function the operation does not
    call.  The operations that do not act on the receiver's channel return
    normally whatever they are given. *)
Theorem operations_total cm r x hs fn h :
  view h r = Some x ->
  match x with
  | IsOk v =>
      (returns (h_ok hs v) h -> returns (Result_match r hs) h) /\
      (returns (fn v) h ->
         returns (Result_andThen r fn) h /\ returns (Result_map cm r fn) h) /\
      returns (Result_orElse r fn) h /\
      returns (Result_mapErr cm r fn) h
  | IsErr e =>
      (returns (h_err hs e) h -> returns (Result_match r hs) h) /\
      (returns (fn e) h ->
         returns (Result_orElse r fn) h /\ returns (Result_mapErr cm r fn) h) /\
      returns (Result_andThen r fn) h /\
      returns (Result_map cm r fn) h
  end.
Proof.
  intros Hv. unfold returns.
  rewrite (Result_match_run r x hs h Hv), (Result_andThen_run r x fn h Hv),
    (Result_orElse_run r x fn h Hv), (Result_map_run cm r x fn h Hv),
    (Result_mapErr_run cm r x fn h Hv).
  destruct x as [v|e].
  - split; [auto|]. split; [|split; by eauto].
    intros (y & h1 & Hy). split; [by eauto|].
    rewrite (bind_ret _ _ _ _ _ Hy), ok_run. eauto.
  - split; [auto|]. split; [|split; by eauto].
    intros (y & h1 & Hy). split; [by eauto|].
    rewrite (bind_ret _ _ _ _ _ Hy), err_run. eauto.
Qed.

Lemma operations_total_witness :
  view heap0 (VRef 1) = Some (IsOk (VNum 1)) /\
  returns (counting (VRef 3) (VNum 1)) heap0 /\
  returns (Result_match (VRef 1) (mkHandlers (counting (VRef 3)) flunk)) heap0 /\
  returns (Result_map marker0 (VRef 1) (counting (VRef 3))) heap0.
Proof.
  assert (Hcall : returns (counting (VRef 3) (VNum 1)) heap0).
  { eexists _, _. reflexivity. }
  destruct (operations_total marker0 (VRef 1) (IsOk (VNum 1))
              (mkHandlers (counting (VRef 3)) flunk) (counting (VRef 3)) heap0 eq_refl)
    as (Hmatch & Hfn & _).
  split; [reflexivity|]. split; [exact Hcall|].
  split; [exact (Hmatch Hcall) | exact (proj2 (Hfn Hcall))].
Defined.

(** ** The freeze is shallow *)

(** Building a result on top of [h] leaves every object of [h] as it was. *)
Lemma lookup_below (h : heap) o' p o : h !! p = Some o -> (h ++ [o']) !! p = Some o.
Proof. apply lookup_app_l_Some. Qed.

(** A payload object that accepted a new property before the result was
    built still accepts it afterwards, and the write is seen through the
    result's own field. *)
Lemma payload_write_through (h : heap) inst field p o k y :
  own_value inst field = VRef p ->
  h !! p = Some o -> o_props o !! k = None -> o_extensible o = true ->
  (js_set true (VRef p) k y ;;;
   x <- js_get (VRef (length h)) field ;; js_get x k) (h ++ [inst])
  = (Ret y, <[p := set_own o k (mkProp y true true)]> (h ++ [inst])).
Proof.
  intros Hf Hp Hk He.
  assert (Hlt : p < length h) by (by eapply lookup_lt_Some).
  assert (Hp' : (h ++ [inst]) !! p = Some o) by (by apply lookup_below).
  erewrite bind_ret; cycle 1.
  { unfold js_set. rewrite Hp', Hk, He. reflexivity. }
  erewrite bind_ret; cycle 1.
  { apply js_get_at. rewrite list_lookup_insert_ne by lia. apply lookup_last. }
  rewrite Hf. erewrite js_get_at; cycle 1.
  { apply list_lookup_insert_eq. rewrite length_app. simpl. lia. }
  unfold own_value, set_own. simpl. by rewrite lookup_insert_eq.
Qed.

(** An attempt to assign to any property of an instance, existing or new, is
    rejected and the heap stays as it is. *)
Lemma instance_rejects_set (h : heap) l x strict k y :
  h !! l = Some (instance_of x) ->
  js_set strict (VRef l) k y h = ((if strict then Throw TypeError else Ret tt), h).
Proof.
  intros Hl. destruct (frozen_inv _ (instance_frozen x)) as [He Hp].
  unfold js_set. rewrite Hl.
  destruct (o_props (instance_of x) !! k) as [p|] eqn:Hk.
  - destruct (Hp k p Hk) as [-> _]. by destruct strict.
  - rewrite He. by destruct strict.
Qed.

Lemma isFrozen_last (h : heap) x :
  Object_isFrozen (VRef (length h)) (h ++ [instance_of x])
  = (Ret (VBool true), h ++ [instance_of x]).
Proof.
  unfold Object_isFrozen. by rewrite lookup_last, instance_frozen.
Qed.

Lemma isFrozen_below (h : heap) o' p o :
  h !! p = Some o ->
  Object_isFrozen (VRef p) (h ++ [o']) = (Ret (VBool (is_frozen o)), h ++ [o']).
Proof.
  intros Hp. apply (lookup_below h o') in Hp.
  unfold Object_isFrozen, loc in *. by rewrite Hp.
Qed.

(** C10: the freeze applied at construction is shallow.  [ok(v).value] is
    the argument [v] itself (for an object, the same location); that same
    value is what [match], [andThen] and [map] hand to the supplied
    function.  The instance itself is frozen: [Object.isFrozen] says so and
    an assignment to any of its properties is rejected.  The payload is not
    touched: construction leaves every existing object exactly as it was,
    so a payload object is frozen afterwards only if it was before, one
    that was writable stays writable, and a write to it shows through the
    result.  The same holds for [err(e).error] with [match], [orElse] and
    [mapErr]. *)
Theorem freeze_is_shallow cm v h :
  (exists r h', ok cm v h = (Ret r, h') /\
     js_get r "value" h' = (Ret v, h') /\
     (forall hs, Result_match r hs h' = h_ok hs v h') /\
     (forall fn, Result_andThen r fn h' = fn v h') /\
     (forall fn, Result_map cm r fn h' = (y <- fn v ;; ok cm y) h') /\
     Object_isFrozen r h' = (Ret (VBool true), h') /\
     (forall strict k y,
        js_set strict r k y h' = ((if strict then Throw TypeError else Ret tt), h')) /\
     (forall p o, h !! p = Some o -> h' !! p = Some o) /\
     (forall p o, v = VRef p -> h !! p = Some o ->
        Object_isFrozen v h' = (Ret (VBool (is_frozen o)), h')) /\
     (forall p o k y, v = VRef p -> h !! p = Some o ->
        o_props o !! k = None -> o_extensible o = true ->
        (js_set true v k y ;;; x <- js_get r "value" ;; js_get x k) h'
        = (Ret y, <[p := set_own o k (mkProp y true true)]> h'))) /\
  (exists r h', err cm v h = (Ret r, h') /\
     js_get r "error" h' = (Ret v, h') /\
     (forall hs, Result_match r hs h' = h_err hs v h') /\
     (forall fn, Result_orElse r fn h' = fn v h') /\
     (forall fn, Result_mapErr cm r fn h' = (y <- fn v ;; err cm y) h') /\
     Object_isFrozen r h' = (Ret (VBool true), h') /\
     (forall strict k y,
        js_set strict r k y h' = ((if strict then Throw TypeError else Ret tt), h')) /\
     (forall p o, h !! p = Some o -> h' !! p = Some o) /\
     (forall p o, v = VRef p -> h !! p = Some o ->
        Object_isFrozen v h' = (Ret (VBool (is_frozen o)), h')) /\
     (forall p o k y, v = VRef p -> h !! p = Some o ->
        o_props o !! k = None -> o_extensible o = true ->
        (js_set true v k y ;;; x <- js_get r "error" ;; js_get x k) h'
        = (Ret y, <[p := set_own o k (mkProp y true true)]> h'))).
Proof.
  split.
  - exists (VRef (length h)), (h ++ [Ok_instance v]).
    pose proof (holds_view _ _ _ (holds_last h (IsOk v))) as Hv.
    change (instance_of (IsOk v)) with (Ok_instance v) in Hv.
    split; [apply ok_run|].
    split; [by rewrite (js_get_at _ _ _ _ (lookup_last h _))|].
    split; [intros hs; by rewrite (Result_match_run _ _ hs _ Hv)|].
    split; [intros fn; by rewrite (Result_andThen_run _ _ fn _ Hv)|].
    split; [intros fn; by rewrite (Result_map_run cm _ _ fn _ Hv)|].
    split; [apply (isFrozen_last h (IsOk v))|].
    split; [intros strict k y;
            apply (instance_rejects_set _ _ (IsOk v)), lookup_last|].
    split; [intros p o; apply lookup_below|].
    split; [intros p o -> Hp; by apply isFrozen_below|].
    intros p o k y -> Hp Hk He. by apply payload_write_through.
  - exists (VRef (length h)), (h ++ [Err_instance v]).
    pose proof (holds_view _ _ _ (holds_last h (IsErr v))) as Hv.
    change (instance_of (IsErr v)) with (Err_instance v) in Hv.
    split; [apply err_run|].
    split; [by rewrite (js_get_at _ _ _ _ (lookup_last h _))|].
    split; [intros hs; by rewrite (Result_match_run _ _ hs _ Hv)|].
    split; [intros fn; by rewrite (Result_orElse_run _ _ fn _ Hv)|].
    split; [intros fn; by rewrite (Result_mapErr_run cm _ _ fn _ Hv)|].
    split; [apply (isFrozen_last h (IsErr v))|].
    split; [intros strict k y;
            apply (instance_rejects_set _ _ (IsErr v)), lookup_last|].
    split; [intros p o; apply lookup_below|].
    split; [intros p o -> Hp; by apply isFrozen_below|].
    intros p o k y -> Hp Hk He. by apply payload_write_through.
Qed.

(** [const r = ok(counter); counter.m = 5; r.value.m] on the mutable object
    of [heap0]. *)
Example scenario_shallow_freeze :
  (r <- ok marker0 (VRef 3) ;;
   js_set true (VRef 3) "m" (VNum 5) ;;;
   x <- js_get r "value" ;;
   js_get x "m") heap0
  = (Ret (VNum 5),
     <[3 := mkObj CObject
              (<["m" := mkProp (VNum 5) true true]> {[ "n" := mkProp (VNum 0) true true ]})
              true]> (heap0 ++ [Ok_instance (VRef 3)])).
Proof. vm_compute. reflexivity. Qed.

Lemma freeze_is_shallow_witness :
  exists r h', ok marker0 (VRef 3) heap0 = (Ret r, h') /\
    js_get r "value" h' = (Ret (VRef 3), h') /\
    Object_isFrozen r h' = (Ret (VBool true), h') /\
    js_set true r "value" (VNum 7) h' = (Throw TypeError, h') /\
    Object_isFrozen (VRef 3) h' = (Ret (VBool false), h') /\
    h' !! 3 = heap0 !! 3.
Proof.
  destruct (freeze_is_shallow marker0 (VRef 3) heap0)
    as [(r & h' & Hrun & Hget & _ & _ & _ & Hfrozen & Hset & Hkeep & Hpay & _) _].
  exists r, h'. split; [exact Hrun|]. split; [exact Hget|].
  split; [exact Hfrozen|]. split; [exact (Hset true "value" (VNum 7))|].
  split; [exact (Hpay 3 _ eq_refl eq_refl) | apply (Hkeep 3); reflexivity].
Defined.

(** ** Immutability *)

Lemma instance_rejects_delete (h : heap) l x strict k :
  h !! l = Some (instance_of x) -> (js_delete strict (VRef l) k h).2 = h.
Proof.
  intros Hl. destruct (frozen_inv _ (instance_frozen x)) as [He Hp].
  unfold js_delete. rewrite Hl.
  destruct (o_props (instance_of x) !! k) as [p|] eqn:Hk; [|reflexivity].
  destruct (Hp k p Hk) as [_ ->]. by destruct strict.
Qed.

Lemma instance_rejects_define (h : heap) l x k y w c :
  h !! l = Some (instance_of x) -> (js_define (VRef l) k y w c h).2 = h.
Proof.
  intros Hl. destruct (frozen_inv _ (instance_frozen x)) as [He Hp].
  unfold js_define. rewrite Hl.
  destruct (o_props (instance_of x) !! k) as [p|] eqn:Hk.
  - destruct (Hp k p Hk) as [-> ->]. destruct c; [reflexivity|].
    by destruct (bool_decide (y = p_value p) && negb w).
  - by rewrite He.
Qed.

Lemma map_receiver_or_fresh cm h r x fn :
  view h r = Some x -> grows fn ->
  receiver_or_fresh h r (Result_map cm r fn) /\
  receiver_or_fresh h r (Result_mapErr cm r fn).
Proof.
  intros Hv Hg. split; intros r' h';
    [rewrite (Result_map_run cm r x fn h Hv) | rewrite (Result_mapErr_run cm r x fn h Hv)];
    destruct x as [v|e]; try (intros [= <- <-]; by left).
  - unfold bind. pose proof (Hg v h) as Hlen.
    destruct (fn v h) as [[y|ex] h1]; [|discriminate].
    rewrite ok_run. intros [= <- <-]. right. split.
    + simpl in *. apply bool_decide_eq_false_2. lia.
    + exists (IsOk y). apply (holds_last h1 (IsOk y)).
  - unfold bind. pose proof (Hg e h) as Hlen.
    destruct (fn e h) as [[y|ex] h1]; [|discriminate].
    rewrite err_run. intros [= <- <-]. right. split.
    + simpl in *. apply bool_decide_eq_false_2. lia.
    + exists (IsErr y). apply (holds_last h1 (IsErr y)).
Qed.

Lemma andThen_receiver_or_result h r x fn r' h' :
  view h r = Some x ->
  (Result_andThen r fn h = (Ret r', h') ->
     (r' = r /\ h' = h) \/ exists a, fn a h = (Ret r', h')) /\
  (Result_orElse r fn h = (Ret r', h') ->
     (r' = r /\ h' = h) \/ exists a, fn a h = (Ret r', h')).
Proof.
  intros Hv.
  rewrite (Result_andThen_run r x fn h Hv), (Result_orElse_run r x fn h Hv).
  destruct x as [v|e]; split; intros Hrun;
    first [ right; by exists v | right; by exists e
          | left; by injection Hrun as <- <- ].
Qed.

(** C7, as stated, fails for [andThen]: [ok(1).andThen(() => e)], with [e]
    the [err("bad")] built beforehand, returns [e], which is neither the
    receiver nor a freshly constructed instance. *)
Lemma andThen_returns_existing_instance :
  ~ receiver_or_fresh heap0 (VRef 1) (Result_andThen (VRef 1) (fun _ => ret (VRef 2))).
Proof.
  intros H. destruct (H (VRef 2) heap0 eq_refl) as [E | [E _]]; discriminate.
Qed.

(** C7 (amended): an instance never changes after construction.  Assigning
    to [value], [error], [type], [isOk], [isErr] or to a new property of an
    instance, deleting or redefining one of its properties, is rejected and
    leaves the heap as it was; no runtime primitive, whatever its target,
    and no method, whatever its receiver, changes the instance, provided the
    supplied functions do not.  [map] and [mapErr] return the receiver or a
    freshly constructed instance; [andThen] and [orElse] return the receiver
    or what the supplied function returned; [match] returns what the handler
    it called returned. *)
Theorem instances_immutable cm l x :
  (forall h strict k y, h !! l = Some (instance_of x) ->
     js_set strict (VRef l) k y h = ((if strict then Throw TypeError else Ret tt), h)) /\
  (forall h strict k, h !! l = Some (instance_of x) ->
     (js_delete strict (VRef l) k h).2 = h) /\
  (forall h k y w c, h !! l = Some (instance_of x) ->
     (js_define (VRef l) k y w c h).2 = h) /\
  (forall strict v k y, keeps l (instance_of x) (js_set strict v k y)) /\
  (forall strict v k, keeps l (instance_of x) (js_delete strict v k)) /\
  (forall v k y w c, keeps l (instance_of x) (js_define v k y w c)) /\
  (forall v, keeps l (instance_of x) (Object_freeze v)) /\
  (forall v, keeps l (instance_of x) (Object_seal v)) /\
  (forall r hs,
     (forall a, keeps l (instance_of x) (h_ok hs a)) ->
     (forall a, keeps l (instance_of x) (h_err hs a)) ->
     keeps l (instance_of x) (Result_match r hs)) /\
  (forall r fn,
     (forall a, keeps l (instance_of x) (fn a)) ->
     keeps l (instance_of x) (Result_andThen r fn) /\
     keeps l (instance_of x) (Result_orElse r fn) /\
     keeps l (instance_of x) (Result_map cm r fn) /\
     keeps l (instance_of x) (Result_mapErr cm r fn)) /\
  (forall h r x' fn, view h r = Some x' -> grows fn ->
     receiver_or_fresh h r (Result_map cm r fn) /\
     receiver_or_fresh h r (Result_mapErr cm r fn)) /\
  (forall h r x' fn r' h', view h r = Some x' ->
     (Result_andThen r fn h = (Ret r', h') ->
        (r' = r /\ h' = h) \/ exists a, fn a h = (Ret r', h')) /\
     (Result_orElse r fn h = (Ret r', h') ->
        (r' = r /\ h' = h) \/ exists a, fn a h = (Ret r', h'))) /\
  (forall h r x' hs, view h r = Some x' ->
     Result_match r hs h
     = match x' with IsOk v => h_ok hs v h | IsErr e => h_err hs e h end).
Proof.
  pose proof (instance_frozen x) as Hf.
  split; [intros; by eapply instance_rejects_set|].
  split; [intros; by eapply instance_rejects_delete|].
  split; [intros; by eapply instance_rejects_define|].
  split; [intros; by apply keeps_js_set|].
  split; [intros; by apply keeps_js_delete|].
  split; [intros; by apply keeps_js_define|].
  split; [intros; by apply keeps_Object_freeze|].
  split; [intros; by apply keeps_Object_seal|].
  split; [intros; by apply keeps_Result_match|].
  split.
  { intros r fn Hfn. split; [by apply keeps_Result_andThen|].
    split; [by apply keeps_Result_orElse|].
    split; [by apply keeps_Result_map | by apply keeps_Result_mapErr]. }
  split; [intros; by eapply map_receiver_or_fresh|].
  split; [intros; by eapply andThen_receiver_or_result|].
  intros; by apply Result_match_run.
Qed.

Lemma instances_immutable_witness :
  heap0 !! 1 = Some (instance_of (IsOk (VNum 1))) /\
  js_set true (VRef 1) "value" (VNum 7) heap0 = (Throw TypeError, heap0) /\
  js_set false (VRef 1) "extra" (VNum 7) heap0 = (Ret tt, heap0).
Proof.
  destruct (instances_immutable marker0 1 (IsOk (VNum 1))) as (Hset & _).
  split; [reflexivity|].
  split; [apply (Hset heap0 true); reflexivity | apply (Hset heap0 false); reflexivity].
Defined.

(** * Further properties of the module *)

(** ** [preventAbuse] *)

Lemma seal_freeze_props (m : gmap string prop) :
  seal_prop <$> (freeze_prop <$> m) = freeze_prop <$> m.
Proof.
  rewrite <- map_fmap_compose. apply map_fmap_ext. intros k p _. reflexivity.
Qed.

Lemma freeze_freeze_props (m : gmap string prop) :
  freeze_prop <$> (freeze_prop <$> m) = freeze_prop <$> m.
Proof.
  rewrite <- map_fmap_compose. apply map_fmap_ext. intros k p _. reflexivity.
Qed.

Lemma frozen_after_freeze c (m : gmap string prop) :
  is_frozen (mkObj c (freeze_prop <$> m) false) = true.
Proof.
  unfold is_frozen. simpl. apply bool_decide_eq_true.
  apply map_Forall_fmap. intros k p _. split; reflexivity.
Qed.

Lemma own_value_freeze c (m : gmap string prop) e k :
  own_value (mkObj c (freeze_prop <$> m) false) k = own_value (mkObj c m e) k.
Proof.
  unfold own_value. simpl. rewrite lookup_fmap. by destruct (m !! k).
Qed.

Lemma preventAbuse_at (h : heap) l o :
  h !! l = Some o ->
  preventAbuse (VRef l) h
  = (Ret tt, <[l := mkObj (o_class o) (freeze_prop <$> o_props o) false]> h).
Proof.
  intros Hl. assert (Hlt : l < length h) by (by eapply lookup_lt_Some).
  unfold preventAbuse, bind, Object_freeze, Object_seal. rewrite Hl.
  rewrite list_lookup_insert_eq by exact Hlt. simpl.
  by rewrite seal_freeze_props, list_insert_insert_eq.
Qed.

(** X1: the call of [Object.seal] in [preventAbuse] is redundant: for every
    argument and every heap, [preventAbuse(obj)] does exactly what
    [Object.freeze(obj)] alone does. *)
Theorem preventAbuse_is_freeze v h :
  preventAbuse v h = (Object_freeze v ;;; ret tt) h.
Proof.
  destruct v as [| | | | |l]; try reflexivity.
  destruct (h !! l) as [o|] eqn:Hl.
  - rewrite (preventAbuse_at h l o Hl).
    unfold bind, Object_freeze. by rewrite Hl.
  - unfold preventAbuse, bind, Object_freeze. by rewrite Hl.
Qed.

(** X2: [preventAbuse] on an object leaves it frozen, with its prototype and
    the value of every property unchanged, touches no other object, and is
    idempotent; on a value that is not an object it does nothing. *)
Theorem preventAbuse_freezes (h : heap) l o :
  h !! l = Some o ->
  exists o',
    preventAbuse (VRef l) h = (Ret tt, <[l := o']> h) /\
    is_frozen o' = true /\
    o_class o' = o_class o /\
    (forall k, own_value o' k = own_value o k) /\
    (forall l', l' <> l -> (<[l := o']> h) !! l' = h !! l') /\
    (preventAbuse (VRef l) ;;; preventAbuse (VRef l)) h = preventAbuse (VRef l) h /\
    (forall v, (forall l0, v <> VRef l0) -> preventAbuse v h = (Ret tt, h)).
Proof.
  intros Hl. assert (Hlt : l < length h) by (by eapply lookup_lt_Some).
  exists (mkObj (o_class o) (freeze_prop <$> o_props o) false).
  split; [by apply preventAbuse_at|].
  split; [apply frozen_after_freeze|].
  split; [reflexivity|].
  split; [intros k; destruct o; apply own_value_freeze|].
  split; [intros l' Hne; by apply list_lookup_insert_ne|].
  split.
  - unfold bind at 1. rewrite (preventAbuse_at h l o Hl).
    erewrite preventAbuse_at by (by apply list_lookup_insert_eq).
    simpl. by rewrite freeze_freeze_props, list_insert_insert_eq.
  - intros v Hv. destruct v as [| | | | |l0]; try reflexivity.
    by destruct (Hv l0).
Qed.

Lemma preventAbuse_freezes_witness :
  heap0 !! 3 = Some (mkObj CObject {[ "n" := mkProp (VNum 0) true true ]} true) /\
  exists o',
    preventAbuse (VRef 3) heap0 = (Ret tt, <[3 := o']> heap0) /\
    is_frozen o' = true.
Proof.
  split; [reflexivity|].
  destruct (preventAbuse_freezes heap0 3 _ eq_refl) as (o' & Hrun & Hfr & _).
  exists o'. split; [exact Hrun | exact Hfr].
Defined.

(** ** Identity of the results the factories build *)

Lemma strict_equals_successive (h : heap) o :
  strict_equals (VRef (length h)) (VRef (length (h ++ [o]))) = false.
Proof.
  unfold strict_equals. apply bool_decide_eq_false_2.
  rewrite length_app. simpl. intros [= Heq]. lia.
Qed.

(** X3: every call of a factory builds a new object: two successive calls,
    even with the same argument, return references that are not [===], and
    both results are instances in the final heap. *)
Theorem factories_build_distinct_instances cm v w h :
  (exists a b h',
     (a <- ok cm v ;; b <- ok cm w ;; ret (a, b)) h = (Ret (a, b), h') /\
     strict_equals a b = false /\
     holds h' a (IsOk v) /\ holds h' b (IsOk w)) /\
  (exists a b h',
     (a <- err cm v ;; b <- err cm w ;; ret (a, b)) h = (Ret (a, b), h') /\
     strict_equals a b = false /\
     holds h' a (IsErr v) /\ holds h' b (IsErr w)) /\
  (exists a b h',
     (a <- ok cm v ;; b <- err cm w ;; ret (a, b)) h = (Ret (a, b), h') /\
     strict_equals a b = false /\
     holds h' a (IsOk v) /\ holds h' b (IsErr w)).
Proof.
  repeat split.
  - exists (VRef (length h)), (VRef (length (h ++ [Ok_instance v]))),
      ((h ++ [Ok_instance v]) ++ [Ok_instance w]).
    split; [unfold bind; by rewrite !ok_run|].
    split; [apply strict_equals_successive|].
    split; [apply lookup_below, (holds_last h (IsOk v)) | apply (holds_last _ (IsOk w))].
  - exists (VRef (length h)), (VRef (length (h ++ [Err_instance v]))),
      ((h ++ [Err_instance v]) ++ [Err_instance w]).
    split; [unfold bind; by rewrite !err_run|].
    split; [apply strict_equals_successive|].
    split; [apply lookup_below, (holds_last h (IsErr v)) | apply (holds_last _ (IsErr w))].
  - exists (VRef (length h)), (VRef (length (h ++ [Ok_instance v]))),
      ((h ++ [Ok_instance v]) ++ [Err_instance w]).
    split; [unfold bind; by rewrite ok_run, err_run|].
    split; [apply strict_equals_successive|].
    split; [apply lookup_below, (holds_last h (IsOk v)) | apply (holds_last _ (IsErr w))].
Qed.

(** ** Exceptions raised by the supplied functions *)

(** X4: the methods catch nothing.  When the function they call throws, the
    method throws the same exception and leaves the heap as the function
    left it; in particular [map] and [mapErr] then build no instance. *)
Theorem exceptions_propagate cm r x hs fn h e h1 :
  view h r = Some x ->
  match x with
  | IsOk v =>
      (h_ok hs v h = (Throw e, h1) -> Result_match r hs h = (Throw e, h1)) /\
      (fn v h = (Throw e, h1) ->
         Result_andThen r fn h = (Throw e, h1) /\
         Result_map cm r fn h = (Throw e, h1))
  | IsErr v =>
      (h_err hs v h = (Throw e, h1) -> Result_match r hs h = (Throw e, h1)) /\
      (fn v h = (Throw e, h1) ->
         Result_orElse r fn h = (Throw e, h1) /\
         Result_mapErr cm r fn h = (Throw e, h1))
  end.
Proof.
  intros Hv. destruct x as [v|v]; split.
  - intros Hh. by rewrite (Result_match_run r _ hs h Hv).
  - intros Hfn. rewrite (Result_andThen_run r _ fn h Hv), (Result_map_run cm r _ fn h Hv).
    split; [exact Hfn | by apply bind_throw].
  - intros Hh. by rewrite (Result_match_run r _ hs h Hv).
  - intros Hfn. rewrite (Result_orElse_run r _ fn h Hv), (Result_mapErr_run cm r _ fn h Hv).
    split; [exact Hfn | by apply bind_throw].
Qed.

Lemma exceptions_propagate_witness :
  view heap0 (VRef 1) = Some (IsOk (VNum 1)) /\
  Result_map marker0 (VRef 1) flunk heap0 = (Throw (Thrown (VStr "called")), heap0).
Proof.
  split; [reflexivity|].
  destruct (exceptions_propagate marker0 (VRef 1) (IsOk (VNum 1))
              (mkHandlers flunk flunk) flunk heap0
              (Thrown (VStr "called")) heap0 eq_refl) as [_ Hfn].
  apply Hfn. reflexivity.
Defined.

(** ** What [map] and [mapErr] return *)

(** X5: on an instance, whatever the supplied function does, a [map] or
    [mapErr] that returns at all returns an instance of the same variant as
    the receiver: [map] leaves an [Err] as it is and turns an [Ok] into an
    [Ok], [mapErr] leaves an [Ok] as it is and turns an [Err] into an
    [Err]. *)
Theorem map_preserves_variant cm h r x fn r' h' :
  holds h r x ->
  (Result_map cm r fn h = (Ret r', h') ->
     exists x', holds h' r' x' /\ same_variant x x' = true /\
       forall e, x = IsErr e -> x' = x /\ r' = r /\ h' = h) /\
  (Result_mapErr cm r fn h = (Ret r', h') ->
     exists x', holds h' r' x' /\ same_variant x x' = true /\
       forall v, x = IsOk v -> x' = x /\ r' = r /\ h' = h).
Proof.
  intros Hr. pose proof (holds_view _ _ _ Hr) as Hv.
  rewrite (Result_map_run cm r x fn h Hv), (Result_mapErr_run cm r x fn h Hv).
  destruct x as [v|e]; split.
  - unfold bind. destruct (fn v h) as [[y|ex] h1]; [|discriminate].
    rewrite ok_run. intros [= <- <-]. exists (IsOk y).
    split; [apply (holds_last h1 (IsOk y))|]. split; [reflexivity | discriminate].
  - intros [= <- <-]. exists (IsOk v). repeat split; [exact Hr | by intros ? _..].
  - intros [= <- <-]. exists (IsErr e). repeat split; [exact Hr | by intros ? _..].
  - unfold bind. destruct (fn e h) as [[y|ex] h1]; [|discriminate].
    rewrite err_run. intros [= <- <-]. exists (IsErr y).
    split; [apply (holds_last h1 (IsErr y))|]. split; [reflexivity | discriminate].
Qed.

Lemma map_preserves_variant_witness :
  holds heap0 (VRef 2) (IsErr (VStr "bad")) /\
  exists x', holds heap0 (VRef 2) x' /\ same_variant (IsErr (VStr "bad")) x' = true.
Proof.
  split; [reflexivity|].
  destruct (map_preserves_variant marker0 heap0 (VRef 2) (IsErr (VStr "bad")) flunk
              (VRef 2) heap0 eq_refl) as [Hmap _].
  destruct (Hmap eq_refl) as (x' & Hx & Hs & _).
  exists x'. split; [exact Hx | exact Hs].
Defined.

(** ** Method chains *)

(** X6: a chain of method calls none of which acts on the receiver's channel
    ([andThen] and [map] on an [Err], [orElse] and [mapErr] on an [Ok]),
    however long, returns the receiver itself, leaves the heap unchanged and
    calls none of the supplied functions. *)
Theorem chain_short_circuits cm r x cs h :
  view h r = Some x ->
  forallb (fun c => negb (applies x c)) cs = true ->
  chain cm r cs h = (Ret r, h).
Proof.
  intros Hv. induction cs as [|c cs IH]; intros Hcs; [reflexivity|].
  simpl in Hcs. apply andb_true_iff in Hcs as [Hc Hcs].
  simpl. erewrite bind_ret; [by apply IH|].
  destruct c as [fn|fn|fn|fn]; simpl;
    [rewrite (Result_andThen_run r x fn h Hv) | rewrite (Result_orElse_run r x fn h Hv)
    |rewrite (Result_map_run cm r x fn h Hv) | rewrite (Result_mapErr_run cm r x fn h Hv)];
    destruct x; simpl in Hc; (reflexivity || discriminate).
Qed.

Lemma chain_short_circuits_witness :
  view heap0 (VRef 2) = Some (IsErr (VStr "bad")) /\
  chain marker0 (VRef 2) [CallAndThen flunk; CallMap flunk; CallAndThen flunk] heap0
  = (Ret (VRef 2), heap0).
Proof.
  split; [reflexivity|].
  apply (chain_short_circuits marker0 (VRef 2) (IsErr (VStr "bad"))); reflexivity.
Defined.

(** ** How the methods are related *)

(** X7: [r.map(f)] is [r.andThen(x => ok(f(x)))] and [r.mapErr(f)] is
    [r.orElse(e => err(f(e)))]: the same outcome and the same heap. *)
Theorem map_is_andThen_ok cm r x fn h :
  view h r = Some x ->
  Result_map cm r fn h = Result_andThen r (fun v => y <- fn v ;; ok cm y) h /\
  Result_mapErr cm r fn h = Result_orElse r (fun e => y <- fn e ;; err cm y) h.
Proof.
  intros Hv.
  rewrite (Result_map_run cm r x fn h Hv), (Result_mapErr_run cm r x fn h Hv),
    (Result_andThen_run r x _ h Hv), (Result_orElse_run r x _ h Hv).
  by destruct x.
Qed.

Lemma map_is_andThen_ok_witness :
  view heap0 (VRef 1) = Some (IsOk (VNum 1)) /\
  Result_map marker0 (VRef 1) succ heap0
  = Result_andThen (VRef 1) (fun v => y <- succ v ;; ok marker0 y) heap0.
Proof.
  split; [reflexivity|].
  apply (map_is_andThen_ok marker0 (VRef 1) (IsOk (VNum 1)) succ heap0). reflexivity.
Defined.

(** X8: every other method is a [match]: [andThen(f)] is
    [match({ok: f, err: () => r})], [orElse(f)] is
    [match({ok: () => r, err: f})], [map(f)] is
    [match({ok: x => ok(f(x)), err: () => r})] and [mapErr(f)] is
    [match({ok: () => r, err: e => err(f(e))})], with [r] the receiver. *)
Theorem methods_are_matches cm r x fn h :
  view h r = Some x ->
  Result_andThen r fn h
  = Result_match r (mkHandlers fn (fun _ => ret r)) h /\
  Result_orElse r fn h
  = Result_match r (mkHandlers (fun _ => ret r) fn) h /\
  Result_map cm r fn h
  = Result_match r (mkHandlers (fun v => y <- fn v ;; ok cm y) (fun _ => ret r)) h /\
  Result_mapErr cm r fn h
  = Result_match r (mkHandlers (fun _ => ret r) (fun e => y <- fn e ;; err cm y)) h.
Proof.
  intros Hv.
  rewrite (Result_map_run cm r x fn h Hv), (Result_mapErr_run cm r x fn h Hv),
    (Result_andThen_run r x _ h Hv), (Result_orElse_run r x _ h Hv),
    !(Result_match_run r x _ h Hv).
  by destruct x.
Qed.

Lemma methods_are_matches_witness :
  view heap0 (VRef 2) = Some (IsErr (VStr "bad")) /\
  Result_orElse (VRef 2) (fun e => ok marker0 e) heap0
  = Result_match (VRef 2) (mkHandlers (fun _ => ret (VRef 2)) (fun e => ok marker0 e)) heap0.
Proof.
  split; [reflexivity|].
  apply (methods_are_matches marker0 (VRef 2) (IsErr (VStr "bad"))
           (fun e => ok marker0 e) heap0).
  reflexivity.
Defined.

(** X9: as long as the supplied functions leave [Ok.prototype] and
    [Err.prototype] as the class declarations left them (every function of
    the embedding does: it may read and write heap objects and throw, the
    method tables are out of its reach), [map] and [mapErr] commute:
    [r.map(f).mapErr(g)] and [r.mapErr(g).map(f)] return the same outcome
    and leave the same heap, the writes to heap objects and the exceptions
    of [f] and [g] included. *)
Theorem map_mapErr_commute cm r x f g h :
  view h r = Some x ->
  (r' <- Result_map cm r f ;; Result_mapErr cm r' g) h
  = (r' <- Result_mapErr cm r g ;; Result_map cm r' f) h.
Proof.
  intros Hv. unfold bind.
  rewrite (Result_map_run cm r x f h Hv), (Result_mapErr_run cm r x g h Hv).
  destruct x as [v|e].
  - rewrite (Result_map_run cm r _ f h Hv).
    unfold bind. destruct (f v h) as [[y|ex] h1]; [|reflexivity].
    rewrite ok_run. change (Ok_instance y) with (instance_of (IsOk y)).
    by rewrite (Result_mapErr_run cm _ (IsOk y) g _ (holds_view _ _ _ (holds_last h1 (IsOk y)))).
  - rewrite (Result_mapErr_run cm r _ g h Hv).
    unfold bind. destruct (g e h) as [[y|ex] h1]; [|reflexivity].
    rewrite err_run. change (Err_instance y) with (instance_of (IsErr y)).
    by rewrite (Result_map_run cm _ (IsErr y) f _ (holds_view _ _ _ (holds_last h1 (IsErr y)))).
Qed.

Lemma map_mapErr_commute_witness :
  view heap0 (VRef 1) = Some (IsOk (VNum 1)) /\
  (r' <- Result_map marker0 (VRef 1) succ ;; Result_mapErr marker0 r' flunk) heap0
  = (r' <- Result_mapErr marker0 (VRef 1) flunk ;; Result_map marker0 r' succ) heap0.
Proof.
  split; [reflexivity|].
  apply (map_mapErr_commute marker0 (VRef 1) (IsOk (VNum 1)) succ flunk heap0).
  reflexivity.
Defined.

(** X10: [orElse] satisfies the monad laws on the error channel.  Left
    identity: [err(e).orElse(f)] is the call [f(e)].  Right identity:
    [r.orElse(err)] returns a result with the variant and the payload of [r]
    (the receiver itself for an [Ok], a new equal [Err] for an [Err]).
    Associativity: [r.orElse(f).orElse(g)] and
    [r.orElse(e => f(e).orElse(g))] are the same computation. *)
Theorem orElse_monad_laws cm r x f g h :
  view h r = Some x ->
  (forall e h0, (r0 <- err cm e ;; Result_orElse r0 f) h0 = (err cm e ;;; f e) h0) /\
  (exists r' h', Result_orElse r (err cm) h = (Ret r', h') /\
     view h' r' = Some x /\
     (holds h r x -> holds h' r' x)) /\
  (r1 <- Result_orElse r f ;; Result_orElse r1 g) h
  = Result_orElse r (fun e => r1 <- f e ;; Result_orElse r1 g) h.
Proof.
  intros Hv. repeat split.
  - intros e h0. unfold bind. rewrite err_run.
    change (Err_instance e) with (instance_of (IsErr e)).
    by rewrite (Result_orElse_run _ (IsErr e) f _ (holds_view _ _ _ (holds_last h0 (IsErr e)))).
  - rewrite (Result_orElse_run r x (err cm) h Hv). destruct x as [v|e].
    + exists r, h. auto.
    + exists (VRef (length h)), (h ++ [Err_instance e]).
      split; [apply err_run|]. split.
      * apply holds_view, (holds_last h (IsErr e)).
      * intros _. apply (holds_last h (IsErr e)).
  - rewrite (Result_orElse_run r x _ h Hv).
    unfold bind at 1. rewrite (Result_orElse_run r x f h Hv).
    destruct x as [v|e]; [|reflexivity].
    by rewrite (Result_orElse_run r _ g h Hv).
Qed.

Lemma orElse_monad_laws_witness :
  view heap0 (VRef 2) = Some (IsErr (VStr "bad")) /\
  (r1 <- Result_orElse (VRef 2) (err marker0) ;; Result_orElse r1 (ok marker0)) heap0
  = Result_orElse (VRef 2) (fun e => r1 <- err marker0 e ;; Result_orElse r1 (ok marker0)) heap0.
Proof.
  split; [reflexivity|].
  apply (orElse_monad_laws marker0 (VRef 2) (IsErr (VStr "bad"))
           (err marker0) (ok marker0) heap0).
  reflexivity.
Defined.

(** ** [map] and [mapErr] as functors *)

Lemma view_last (h : heap) x : view (h ++ [instance_of x]) (VRef (length h)) = Some x.
Proof. apply holds_view, holds_last. Qed.

Lemma map_pure_run cm r x f h :
  view h r = Some x ->
  Result_map cm r (pure_fn f) h
  = match x with
    | IsOk v => (Ret (VRef (length h)), h ++ [instance_of (IsOk (f v))])
    | IsErr _ => (Ret r, h)
    end.
Proof.
  intros Hv. rewrite (Result_map_run cm r x _ h Hv). destruct x; [|reflexivity].
  unfold bind, pure_fn, ret. by rewrite ok_run.
Qed.

Lemma mapErr_pure_run cm r x f h :
  view h r = Some x ->
  Result_mapErr cm r (pure_fn f) h
  = match x with
    | IsOk _ => (Ret r, h)
    | IsErr e => (Ret (VRef (length h)), h ++ [instance_of (IsErr (f e))])
    end.
Proof.
  intros Hv. rewrite (Result_mapErr_run cm r x _ h Hv). destruct x; [reflexivity|].
  unfold bind, pure_fn, ret. by rewrite err_run.
Qed.

(** X11: for functions without effects, [map] and [mapErr] obey the functor
    laws up to the identity of the instance: mapping [x => x] returns a
    result with the variant and payload of the receiver, and mapping [f]
    then [g] returns a result with the same variant and payload as mapping
    [x => g(f(x))]; the two-step form builds one instance more when the
    method acts on the receiver's channel. *)
Theorem map_functor_laws cm r x f g h :
  view h r = Some x ->
  (exists r1 h1, Result_map cm r (pure_fn (fun v => v)) h = (Ret r1, h1) /\
     view h1 r1 = Some x) /\
  (exists r1 h1, Result_mapErr cm r (pure_fn (fun v => v)) h = (Ret r1, h1) /\
     view h1 r1 = Some x) /\
  (exists r1 h1 r2 h2,
     (r' <- Result_map cm r (pure_fn f) ;; Result_map cm r' (pure_fn g)) h = (Ret r1, h1) /\
     Result_map cm r (pure_fn (fun v => g (f v))) h = (Ret r2, h2) /\
     view h1 r1 = view h2 r2 /\
     view h2 r2 = Some (match x with IsOk v => IsOk (g (f v)) | IsErr e => IsErr e end) /\
     length h1 = length h2 + (match x with IsOk _ => 1 | IsErr _ => 0 end)) /\
  (exists r1 h1 r2 h2,
     (r' <- Result_mapErr cm r (pure_fn f) ;; Result_mapErr cm r' (pure_fn g)) h = (Ret r1, h1) /\
     Result_mapErr cm r (pure_fn (fun v => g (f v))) h = (Ret r2, h2) /\
     view h1 r1 = view h2 r2 /\
     view h2 r2 = Some (match x with IsOk v => IsOk v | IsErr e => IsErr (g (f e)) end) /\
     length h1 = length h2 + (match x with IsOk _ => 0 | IsErr _ => 1 end)).
Proof.
  intros Hv. split; [|split; [|split]].
  - rewrite (map_pure_run cm r x _ h Hv). destruct x as [v|e]; eexists _, _;
      (split; [reflexivity|]); [apply view_last | exact Hv].
  - rewrite (mapErr_pure_run cm r x _ h Hv). destruct x as [v|e]; eexists _, _;
      (split; [reflexivity|]); [exact Hv | apply view_last].
  - unfold bind. rewrite !(map_pure_run cm r x _ h Hv). destruct x as [v|e].
    + rewrite (map_pure_run cm _ _ g _ (view_last h (IsOk (f v)))).
      eexists _, _, _, _. split; [reflexivity|]. split; [reflexivity|].
      rewrite !view_last. split; [reflexivity|]. split; [reflexivity|].
      rewrite !length_app. simpl. lia.
    + rewrite (map_pure_run cm r _ g h Hv).
      eexists _, _, _, _. split; [reflexivity|]. split; [reflexivity|].
      split; [reflexivity|]. split; [exact Hv | lia].
  - unfold bind. rewrite !(mapErr_pure_run cm r x _ h Hv). destruct x as [v|e].
    + rewrite (mapErr_pure_run cm r _ g h Hv).
      eexists _, _, _, _. split; [reflexivity|]. split; [reflexivity|].
      split; [reflexivity|]. split; [exact Hv | lia].
    + rewrite (mapErr_pure_run cm _ _ g _ (view_last h (IsErr (f e)))).
      eexists _, _, _, _. split; [reflexivity|]. split; [reflexivity|].
      rewrite !view_last. split; [reflexivity|]. split; [reflexivity|].
      rewrite !length_app. simpl. lia.
Qed.

Lemma map_functor_laws_witness :
  view heap0 (VRef 1) = Some (IsOk (VNum 1)) /\
  exists r1 h1, Result_map marker0 (VRef 1) (pure_fn (fun v => v)) heap0 = (Ret r1, h1) /\
    view h1 r1 = Some (IsOk (VNum 1)).
Proof.
  split; [reflexivity|].
  apply (map_functor_laws marker0 (VRef 1) (IsOk (VNum 1)) (fun v => v) (fun v => v) heap0).
  reflexivity.
Defined.

(** ** The fields of an instance *)




(** ** The marker is compared by identity *)

(** X13: the marker is the object the module allocates when it is loaded,
    and the constructors compare by identity.  No value that existed before
    the module was loaded passes the guard, and neither does a new empty
    object that looks exactly like the marker; the factories of the loaded
    module return normally. *)
Theorem marker_compared_by_identity v h :
  (forall m, (forall l, m = VRef l -> l < length h) ->
     (cm <- module_init ;; Ok_constructor cm v m) h
     = (Throw (Error "This function can only be called by Result internals."),
        (h ++ [new_object CObject]) ++ [Ok_fields]) /\
     (cm <- module_init ;; Err_constructor cm v m) h
     = (Throw (Error "This function can only be called by Result internals."),
        (h ++ [new_object CObject]) ++ [Err_fields])) /\
  (cm <- module_init ;; m <- alloc (new_object CObject) ;; Ok_constructor cm v m) h
  = (Throw (Error "This function can only be called by Result internals."),
     ((h ++ [new_object CObject]) ++ [new_object CObject]) ++ [Ok_fields]) /\
  (cm <- module_init ;; m <- alloc (new_object CObject) ;; Err_constructor cm v m) h
  = (Throw (Error "This function can only be called by Result internals."),
     ((h ++ [new_object CObject]) ++ [new_object CObject]) ++ [Err_fields]) /\
  returns (cm <- module_init ;; ok cm v) h /\
  returns (cm <- module_init ;; err cm v) h.
Proof.
  split; [|split; [|split; [|split]]].
  - intros m Hm.
    assert (Hne : m <> VRef (length h)).
    { intros ->. specialize (Hm _ eq_refl). lia. }
    unfold bind, module_init, alloc.
    by rewrite Ok_constructor_guard, Err_constructor_guard.
  - unfold bind, module_init, alloc. rewrite Ok_constructor_guard; [reflexivity|].
    rewrite length_app. simpl. intros [= Heq]. lia.
  - unfold bind, module_init, alloc. rewrite Err_constructor_guard; [reflexivity|].
    rewrite length_app. simpl. intros [= Heq]. lia.
  - unfold bind, module_init, alloc. eexists _, _. apply ok_run.
  - unfold bind, module_init, alloc. eexists _, _. apply err_run.
Qed.

Lemma marker_compared_by_identity_witness :
  (forall l, VRef 1 = VRef l -> l < length heap0) /\
  (cm <- module_init ;; Ok_constructor cm (VNum 4) (VRef 1)) heap0
  = (Throw (Error "This function can only be called by Result internals."),
     (heap0 ++ [new_object CObject]) ++ [Ok_fields]).
Proof.
  split; [intros l [= <-]; simpl; lia|].
  apply (marker_compared_by_identity (VNum 4) heap0).
  intros l [= <-]. simpl. lia.
Defined.

(** ** The module writes to nothing that exists *)

(** X14: the module's own code never writes to an object that already
    exists, frozen or not: a factory call, a constructor call with any
    marker (failing or not) and every method leave each object of the heap
    exactly as it was, as long as the supplied functions do. *)
Theorem module_changes_no_object cm l o :
  (forall v marker,
     keeps l o (Ok_constructor cm v marker) /\ keeps l o (Err_constructor cm v marker)) /\
  (forall v, keeps l o (ok cm v) /\ keeps l o (err cm v)) /\
  (forall r hs,
     (forall a, keeps l o (h_ok hs a)) -> (forall a, keeps l o (h_err hs a)) ->
     keeps l o (Result_match r hs)) /\
  (forall r fn,
     (forall a, keeps l o (fn a)) ->
     keeps l o (Result_andThen r fn) /\
     keeps l o (Result_orElse r fn) /\
     keeps l o (Result_map cm r fn) /\
     keeps l o (Result_mapErr cm r fn)).
Proof.
  split; [|split; [|split]].
  - intros v marker. split; [apply keeps_Ok_constructor | apply keeps_Err_constructor].
  - intros v. split; [apply keeps_Ok_constructor | apply keeps_Err_constructor].
  - intros r hs Hok Herr. by apply keeps_Result_match.
  - intros r fn Hfn. split; [by apply keeps_Result_andThen|].
    split; [by apply keeps_Result_orElse|].
    split; [by apply keeps_Result_map | by apply keeps_Result_mapErr].
Qed.

Lemma module_changes_no_object_witness :
  (forall a, keeps 3 (mkObj CObject {[ "n" := mkProp (VNum 0) true true ]} true) (succ a)) /\
  keeps 3 (mkObj CObject {[ "n" := mkProp (VNum 0) true true ]} true)
    (Result_map marker0 (VRef 1) succ).
Proof.
  assert (Hsucc : forall a,
    keeps 3 (mkObj CObject {[ "n" := mkProp (VNum 0) true true ]} true) (succ a)).
  { intros a h Hl. destruct a; exact Hl. }
  split; [exact Hsucc|].
  apply (module_changes_no_object marker0 3 _). exact Hsucc.
Defined.
